(** * sieve: the arXiv feed-retrieval pipeline ([sieve/arxiv.py])

    A shallow embedding of [html_escaping], [search_url],
    [paper_from_arxiv_entry], [get_feed] and the generator [query], with the
    statements about them that the design document makes.

    Conventions.
    - A Python [str] is a [string]; every character is a code point below 256.
    - A Python [int] is a [Z].
    - A Python [float] delay is an exact rational ([Q]); rounding is not
      modelled, and a delay too large for a [float] counts as one too large
      for [sleep] (both raise [OverflowError]).
    - A raised exception is the [Raise] branch of [result]. *)

From Stdlib Require Import ZArith QArith Qpower List Sorted Bool Ascii String Lia.
From Stdlib Require DecimalString DecimalPos DecimalZ.
Import ListNotations.

Local Open Scope string_scope.
Local Open Scope Z_scope.

(** ** Exceptions *)

Inductive exn : Type :=
| ValueError
| TypeError
| KeyError
| OverflowError.

Inductive result (A : Type) : Type :=
| Ok (a : A)
| Raise (e : exn).

Arguments Ok {A} a.
Arguments Raise {A} e.

Definition bind {A B : Type} (m : result A) (k : A -> result B) : result B :=
  match m with
  | Ok a => k a
  | Raise e => Raise e
  end.

Notation "x <- m ;; k" := (bind m (fun x => k))
  (at level 61, m at next level, right associativity).

(** ** Strings *)

Module Str.

(** [flat_map] over the characters of a string. *)
Fixpoint expand (f : ascii -> string) (s : string) : string :=
  match s with
  | EmptyString => EmptyString
  | String c s' => f c ++ expand f s'
  end.

(** [map] over the characters of a string. *)
Fixpoint map (f : ascii -> ascii) (s : string) : string :=
  match s with
  | EmptyString => EmptyString
  | String c s' => String (f c) (map f s')
  end.

(** Membership of a character in a string. *)
Fixpoint mem (c : ascii) (s : string) : bool :=
  match s with
  | EmptyString => false
  | String d s' => Ascii.eqb c d || mem c s'
  end.

(** The scan behind [str.replace(old, new)] for a non-empty [old]: left to
    right, non-overlapping occurrences.  [skip] counts the characters of a
    matched occurrence that are still to be passed over. *)
Fixpoint replace_from (old new : string) (skip : nat) (s : string) : string :=
  match s with
  | EmptyString => EmptyString
  | String c s' =>
      match skip with
      | S k => replace_from old new k s'
      | O =>
          if prefix old s
          then new ++ replace_from old new (String.length old - 1) s'
          else String c (replace_from old new 0 s')
      end
  end.

(** [s.replace(old, new)].  With an empty [old] Python puts [new] before
    every character and at the end. *)
Definition replace (old new s : string) : string :=
  match old with
  | EmptyString => new ++ expand (fun c => String c new) s
  | String _ _ => replace_from old new 0 s
  end.

(** Python's [str.isspace] on one code point below 256. *)
Definition is_space (c : ascii) : bool :=
  let n := nat_of_ascii c in
  ((9 <=? n) && (n <=? 13) || (28 <=? n) && (n <=? 32)
   || (n =? 133) || (n =? 160))%nat.

Definition flush (word : string) : list string :=
  match word with
  | EmptyString => []
  | String _ _ => [word]
  end.

(** The scan behind [s.split()] (no separator): [word] holds the characters
    of the word being read. *)
Fixpoint split_from (word : string) (s : string) : list string :=
  match s with
  | EmptyString => flush word
  | String c s' =>
      if is_space c
      then flush word ++ split_from EmptyString s'
      else split_from (word ++ String c EmptyString) s'
  end.

(** [s.split()]. *)
Definition split (s : string) : list string := split_from EmptyString s.

(** Some character of [s] is whitespace. *)
Fixpoint has_space (s : string) : bool :=
  match s with
  | EmptyString => false
  | String c s' => is_space c || has_space s'
  end.

(** A word: non-empty and free of whitespace. *)
Definition is_word (w : string) : Prop := w <> EmptyString /\ has_space w = false.

(** [collapsed_from prev s]: every whitespace character of [s] is a space
    that follows a non-space character ([prev] tells whether the character
    before [s] was a space or the start) and [s] does not end the string on
    a space. *)
Fixpoint collapsed_from (prev_space : bool) (s : string) : bool :=
  match s with
  | EmptyString => negb prev_space
  | String c s' =>
      if is_space c
      then Ascii.eqb c " " && negb prev_space && collapsed_from true s'
      else collapsed_from false s'
  end.

(** Whitespace-normal: trimmed, and the only whitespace is single spaces
    between words. *)
Definition collapsed (s : string) : bool :=
  match s with
  | EmptyString => true
  | String _ _ => collapsed_from true s
  end.

(** [sep.join(ls)]. *)
Definition join (sep : string) (ls : list string) : string :=
  String.concat sep ls.

(** [str(n)] for an [int]. *)
Definition of_int (n : Z) : string :=
  DecimalString.NilZero.string_of_int (Z.to_int n).

End Str.

(** ** [html_escaping] *)

(** The double-quote character, code point 34. *)
Definition dquote : ascii := ascii_of_nat 34.

Definition replacements : list (string * string) :=
  [ (String dquote EmptyString, "%22"); (" ", "+"); ("(", "%28"); (")", "%29") ].

Definition html_escaping (s : string) : string :=
  fold_left (fun acc r => Str.replace (fst r) (snd r) acc) replacements s.

(** The substitution table read as a map on single characters. *)
Definition escape_char (c : ascii) : string :=
  if Ascii.eqb c dquote then "%22"
  else if Ascii.eqb c " " then "+"
  else if Ascii.eqb c "(" then "%28"
  else if Ascii.eqb c ")" then "%29"
  else String c EmptyString.

(** A character that the table rewrites. *)
Definition reserved (c : ascii) : bool :=
  Ascii.eqb c dquote || Ascii.eqb c " " || Ascii.eqb c "(" || Ascii.eqb c ")".


(** ** [datetime] *)

(** A naive [datetime]: the seven integer fields the constructor takes. *)
Record datetime : Type := {
  year : Z;
  month : Z;
  day : Z;
  hour : Z;
  minute : Z;
  second : Z;
  microsecond : Z
}.

Definition is_leap (y : Z) : bool :=
  (y mod 4 =? 0) && (negb (y mod 100 =? 0) || (y mod 400 =? 0)).

Definition days_in_month (y m : Z) : Z :=
  if m =? 2 then (if is_leap y then 29 else 28)
  else if (m =? 4) || (m =? 6) || (m =? 9) || (m =? 11) then 30
  else 31.

Definition between (lo x hi : Z) : bool := (lo <=? x) && (x <=? hi).

(** The range check of the [datetime] constructor. *)
Definition fields_in_range (y m d h mi s us : Z) : bool :=
  between 1 y 9999 && between 1 m 12 && between 1 d (days_in_month y m)
  && between 0 h 23 && between 0 mi 59 && between 0 s 59
  && between 0 us 999999.

(** [datetime( *args )] for integer arguments: year, month and day are
    required, the other fields default to zero, every field is range
    checked. *)
Definition mk_datetime (args : list Z) : result datetime :=
  match args with
  | y :: m :: d :: rest =>
      if (7 <? Z.of_nat (List.length args)) then Raise TypeError
      else
        let h := nth 0 rest 0 in
        let mi := nth 1 rest 0 in
        let s := nth 2 rest 0 in
        let us := nth 3 rest 0 in
        if fields_in_range y m d h mi s us
        then Ok {| year := y; month := m; day := d; hour := h;
                   minute := mi; second := s; microsecond := us |}
        else Raise ValueError
  | _ => Raise TypeError
  end.

Definition dt_fields (d : datetime) : list Z :=
  [year d; month d; day d; hour d; minute d; second d; microsecond d].

(** Lexicographic [<] on integer lists of the same length. *)
Fixpoint lex_ltb (a b : list Z) : bool :=
  match a, b with
  | x :: a', y :: b' => (x <? y) || ((x =? y) && lex_ltb a' b')
  | _, _ => false
  end.

(** [a < b] on naive datetimes. *)
Definition dt_ltb (a b : datetime) : bool := lex_ltb (dt_fields a) (dt_fields b).

(** ** Records and feed entries ([sieve/models.py], feedparser's entries) *)

Record Paper : Type := {
  id : string;
  title : string;
  authors : list string;
  abstract : string;
  date_published : datetime;
  date_updated : datetime;
  embedding : option (list Q)
}.

(** [p] was published before [t]. *)
Definition older_than (t : datetime) (p : Paper) : bool :=
  dt_ltb (date_published p) t.


(** An author sub-structure of a feed entry; [None] is a missing key. *)
Record author : Type := { author_name : option string }.

(** A feed entry, the keys the normaliser reads; [None] is a missing key. *)
Record entry : Type := {
  entry_id : option string;
  entry_title : option string;
  entry_authors : option (list author);
  entry_summary : option string;
  entry_published_parsed : option (list Z);
  entry_updated_parsed : option (list Z)
}.

(** [d[key]]: a missing key raises [KeyError]. *)
Definition getitem {A : Type} (field : option A) : result A :=
  match field with
  | Some a => Ok a
  | None => Raise KeyError
  end.

(** A list comprehension whose body can raise. *)
Fixpoint comprehension {A B : Type} (f : A -> result B) (l : list A)
  : result (list B) :=
  match l with
  | [] => Ok []
  | a :: l' => b <- f a ;; bs <- comprehension f l' ;; Ok (b :: bs)
  end.

Definition newline : ascii := ascii_of_nat 10.

Definition paper_from_arxiv_entry (e : entry) : result Paper :=
  i <- getitem (entry_id e) ;;
  t <- getitem (entry_title e) ;;
  au <- getitem (entry_authors e) ;;
  names <- comprehension (fun a => getitem (author_name a)) au ;;
  s <- getitem (entry_summary e) ;;
  pp <- getitem (entry_published_parsed e) ;;
  dp <- mk_datetime (firstn 6 pp) ;;
  up <- getitem (entry_updated_parsed e) ;;
  du <- mk_datetime (firstn 6 up) ;;
  Ok {| id := i;
        title := Str.join " " (Str.split (Str.replace (String newline EmptyString) " " t));
        authors := names;
        abstract := Str.replace (String newline EmptyString) " " s;
        date_published := dp;
        date_updated := du;
        embedding := None |}.

(** ** [search_url] *)

Definition search_url (query_string : string) (page max_results : Z) : string :=
  let kwargs :=
    [ ("search_query", html_escaping query_string);
      ("sortBy", "submittedDate");
      ("sortOrder", "descending");
      ("start", Str.of_int (page * max_results));
      ("max_results", Str.of_int max_results) ] in
  "http://export.arxiv.org/api/query?"
  ++ Str.join "&" (List.map (fun kv => fst kv ++ "=" ++ snd kv) kwargs).

(** ** The network, [get_feed] *)

(** A parsed feed: [data["entries"]]. *)
Record feed : Type := { entries : list entry }.

(** What the program has done to the outside: the URLs it opened and the
    delays it slept, oldest first. *)
Record world : Type := {
  requests : list string;
  sleeps : list Q
}.

Definition fresh : world := {| requests := []; sleeps := [] |}.

Definition log_request (url : string) (w : world) : world :=
  {| requests := requests w ++ [url]; sleeps := sleeps w |}.

Definition log_sleep (d : Q) (w : world) : world :=
  {| requests := requests w; sleeps := sleeps w ++ [d] |}.

(** The outside: [urlopen t url] is what the [t]-th request of the run (from
    zero) gets when it asks for [url]; [None] is any failure of
    [parse(urlopen(url).read().decode(...))]. *)
Definition network : Type := nat -> string -> option feed.

(** [time.sleep] takes its argument as a count of nanoseconds in 64 bits:
    these are the least and the greatest delay that fit. *)
Definition sleep_floor : Q := (- 9223372036854775808) # 1000000000.
Definition sleep_limit : Q := 9223372036854775807 # 1000000000.

(** A delay [time.sleep] accepts: it fits and is not negative. *)
Definition sleepable (d : Q) : bool := Qle_bool 0 d && Qle_bool d sleep_limit.

(** What [time.sleep] raises on a delay it does not accept:
    [OverflowError] when the delay does not fit, [ValueError] when it fits
    and is negative. *)
Definition sleep_error (d : Q) : exn :=
  if Qle_bool sleep_floor d && Qle_bool d sleep_limit
  then ValueError
  else OverflowError.

(** [sleep(d)]. *)
Definition sleep (d : Q) (w : world) : result unit * world :=
  if sleepable d then (Ok tt, log_sleep d w) else (Raise (sleep_error d), w).

(** The body of [for current_try in range(max_tries)], over the values of
    the range still to come.  The [sleep] is inside the [except] handler:
    what it raises leaves [get_feed]. *)
Fixpoint get_feed_loop (urlopen : network) (url : string) (backoff_scaling : Q)
    (tries : list nat) (w : world) : result feed * world :=
  match tries with
  | [] => (Raise ValueError, w)
  | current_try :: tries' =>
      match urlopen (List.length (requests w)) url with
      | Some data => (Ok data, log_request url w)
      | None =>
          match sleep (3 * backoff_scaling ^ Z.of_nat current_try)%Q
                  (log_request url w) with
          | (Ok _, w') => get_feed_loop urlopen url backoff_scaling tries' w'
          | (Raise x, w') => (Raise x, w')
          end
      end
  end.

Definition get_feed (urlopen : network) (url : string) (backoff_scaling : Q)
    (max_tries : Z) (w : world) : result feed * world :=
  get_feed_loop urlopen url backoff_scaling (seq 0 (Z.to_nat max_tries)) w.

(** The delay after failed attempt [i]. *)
Definition backoff_delay (scaling : Q) (i : nat) : Q :=
  (3 * scaling ^ Z.of_nat i)%Q.

(** The world after [n] failed attempts at [url] numbered from [a]. *)
Definition after_failures (url : string) (scaling : Q) (w : world) (a n : nat)
  : world :=
  {| requests := requests w ++ repeat url n;
     sleeps := sleeps w ++ List.map (backoff_delay scaling) (seq a n) |}.

(** The time slept in all. *)
Definition total_sleep (w : world) : Q := fold_right Qplus 0%Q (sleeps w).

(** The delays of the first [k] failed attempts, and their sum. *)
Definition backoff_delays (scaling : Q) (k : nat) : list Q :=
  List.map (backoff_delay scaling) (seq 0 k).

Definition backoff_sum (scaling : Q) (k : nat) : Q :=
  fold_right Qplus 0%Q (backoff_delays scaling k).

Definition default_backoff_scaling : Q := 3 # 2.
Definition default_max_tries : Z := 10.

(** ** The generator [query] *)

(** Which [return] of the loop body ended the generator. *)
Inductive stop_reason : Type :=
| CountReached
| DateReached.

(** Where the generator's frame stands between two calls of [next]. *)
Inductive frame : Type :=
| Created
| Suspended (page count : Z) (paper : Paper) (rest : list entry)
| Finished.

(** A generator object: the arguments of the call and the frame. *)
Record generator : Type := {
  query_string : string;
  until : option datetime;
  max_results : option Z;
  position : frame
}.

(** Calling [query] runs none of its body. *)
Definition query (query_string : string) (until : option datetime)
    (max_results : option Z) : generator :=
  {| query_string := query_string; until := until;
     max_results := max_results; position := Created |}.

Definition at_frame (g : generator) (f : frame) : generator :=
  {| query_string := query_string g; until := until g;
     max_results := max_results g; position := f |}.

(** What one call of [next] gives the consumer.  [Returned] and [Exhausted]
    both reach it as [StopIteration]; [OutOfFuel] is the model's mark for a
    call that has not come back within the fuel. *)
Inductive signal : Type :=
| Yield (p : Paper)
| Returned (why : stop_reason)
| Raised (e : exn)
| Exhausted
| OutOfFuel.

(** [min(max_results, 1000)]: comparing [None] with an [int] raises. *)
Definition py_min (a : option Z) (b : Z) : result Z :=
  match a with
  | Some a => Ok (Z.min a b)
  | None => Raise TypeError
  end.

Section Body.

Variable urlopen : network.
Variable g : generator.

(** The [for entry in data["entries"]] loop up to its next [yield]; [pages]
    is the rest of the [while] loop, entered when the entries run out. *)
Definition for_entries (pages : Z -> Z -> world -> signal * generator * world)
    (page count : Z) (es : list entry) (w : world)
  : signal * generator * world :=
  match es with
  | [] => pages (page + 1) count w
  | e :: rest =>
      match paper_from_arxiv_entry e with
      | Raise x => (Raised x, at_frame g Finished, w)
      | Ok paper =>
          match paper_from_arxiv_entry e with
          | Raise x => (Raised x, at_frame g Finished, w)
          | Ok yielded =>
              (Yield yielded, at_frame g (Suspended page count paper rest), w)
          end
      end
  end.

(** The [while True] loop from its head; one unit of fuel per page. *)
Fixpoint while_true (fuel : nat) (page count : Z) (w : world)
  : signal * generator * world :=
  match fuel with
  | O => (OutOfFuel, g, w)
  | S fuel' =>
      match py_min (max_results g) 1000 with
      | Raise x => (Raised x, at_frame g Finished, w)
      | Ok cap =>
          let url := search_url (query_string g) page cap in
          match get_feed urlopen url default_backoff_scaling
                  default_max_tries w with
          | (Raise x, w') => (Raised x, at_frame g Finished, w')
          | (Ok data, w') =>
              for_entries (while_true fuel') page count (entries data) w'
          end
      end
  end.

Definition count_reached (count : Z) : bool :=
  match max_results g with
  | Some m => m <=? count
  | None => false
  end.

Definition date_reached (paper : Paper) : bool :=
  match until g with
  | Some u => dt_ltb (date_published paper) u
  | None => false
  end.

(** [next(g)]: run the body from where the frame stands to the next
    [yield], [return] or exception. *)
Definition next (fuel : nat) (w : world) : signal * generator * world :=
  match position g with
  | Created =>
      match until g, max_results g with
      | None, None => (Raised ValueError, at_frame g Finished, w)
      | _, _ => while_true fuel 0 0 w
      end
  | Suspended page count paper rest =>
      let count := count + 1 in
      if count_reached count then (Returned CountReached, at_frame g Finished, w)
      else if date_reached paper then (Returned DateReached, at_frame g Finished, w)
      else for_entries (while_true fuel) page count rest w
  | Finished => (Exhausted, g, w)
  end.

End Body.

(** The URLs of pages [first .. first + n - 1] of a query. *)
Definition page_urls (q : string) (cap : Z) (first n : nat) : list string :=
  List.map (fun p => search_url q (Z.of_nat p) cap) (seq first n).

Definition log_requests (urls : list string) (w : world) : world :=
  {| requests := requests w ++ urls; sleeps := sleeps w |}.

(** A consumer that takes everything, as [list(g)] or [papers.extend(g)]
    does: the records received and how the iteration ended. *)
Fixpoint drain_from (urlopen : network) (pulls fuel : nat) (g : generator)
    (w : world) : list Paper * signal * world :=
  match pulls with
  | O => ([], OutOfFuel, w)
  | S pulls' =>
      match next urlopen g fuel w with
      | (Yield p, g', w') =>
          let '(ps, s, w'') := drain_from urlopen pulls' fuel g' w' in
          (p :: ps, s, w'')
      | (s, _, w') => ([], s, w')
      end
  end.

Definition drain (urlopen : network) (fuel : nat) (g : generator) (w : world)
  : list Paper * signal * world :=
  drain_from urlopen fuel fuel g w.

(** [FileBackend.update]: the records it appends to the collection. *)
Definition update (urlopen : network) (fuel : nat) (query_string : string)
    (date_updated : datetime) (w : world) : list Paper * signal * world :=
  drain urlopen fuel (query query_string (Some date_updated) None) w.

(** Page [p] of [all] at [cap] entries a page. *)
Definition page_slice (all : list entry) (cap p : nat) : list entry :=
  firstn cap (skipn (p * cap) all).

(** ** Test fixtures: servers over finite and endless feeds *)

Module Fixture.

(** A well-formed entry published on [y]-[m]-[d] at noon. *)
Definition entry_on (n y m d : Z) : entry :=
  {| entry_id := Some ("http://arxiv.org/abs/" ++ Str.of_int n);
     entry_title := Some ("Paper " ++ Str.of_int n);
     entry_authors := Some [ {| author_name := Some "A. Author" |};
                             {| author_name := Some "B. Author" |} ];
     entry_summary := Some "Summary.";
     entry_published_parsed := Some [y; m; d; 12; 0; 0; 0; 1; 0];
     entry_updated_parsed := Some [y; m; d; 12; 0; 0; 0; 1; 0] |}.

(** The record of [entry_on n y m d]. *)
Definition record_on (n y m d : Z) : Paper :=
  let noon := {| year := y; month := m; day := d; hour := 12; minute := 0;
                 second := 0; microsecond := 0 |} in
  {| id := "http://arxiv.org/abs/" ++ Str.of_int n;
     title := "Paper " ++ Str.of_int n;
     authors := ["A. Author"; "B. Author"];
     abstract := "Summary.";
     date_published := noon;
     date_updated := noon;
     embedding := None |}.

(** An entry without a title. *)
Definition untitled : entry :=
  {| entry_id := Some "http://arxiv.org/abs/0";
     entry_title := None;
     entry_authors := Some [];
     entry_summary := Some "Summary.";
     entry_published_parsed := Some [2024; 1; 1; 0; 0; 0; 0; 1; 0];
     entry_updated_parsed := Some [2024; 1; 1; 0; 0; 0; 0; 1; 0] |}.

Definition midnight (y m d : Z) : datetime :=
  {| year := y; month := m; day := d; hour := 0; minute := 0; second := 0;
     microsecond := 0 |}.

(** A server that never fails and answers the first [pages] page requests of
    query [q] at page size [cap] with the slices of [all]; any other URL
    fails. *)
Definition paged (q : string) (cap : Z) (all : list entry) (pages : nat)
  : network :=
  fun _ url =>
    match find (fun p => String.eqb url (search_url q (Z.of_nat p) cap))
               (seq 0 pages) with
    | Some p => Some {| entries := page_slice all (Z.to_nat cap) p |}
    | None => None
    end.

(** A server that never fails on the URLs of [rows], answering each with
    its entries, and fails on any other URL. *)
Definition table (rows : list (string * list entry)) : network :=
  fun _ url =>
    match find (fun row => String.eqb url (fst row)) rows with
    | Some row => Some {| entries := snd row |}
    | None => None
    end.

(** A server that answers a fixed list of pages in order, whatever the
    URL, and an empty page after them. *)
Definition scripted (pages : list (list entry)) : network :=
  fun t _ => Some {| entries := nth t pages [] |}.

(** A server that fails its first [k] requests and then answers [data]. *)
Definition flaky (k : nat) (data : feed) : network :=
  fun t _ => if (t <? k)%nat then None else Some data.

(** Five entries, newest first: 10, 9, 8, 3 and 2 January 2024. *)
Definition january : list entry :=
  [ entry_on 1 2024 1 10; entry_on 2 2024 1 9; entry_on 3 2024 1 8;
    entry_on 4 2024 1 3; entry_on 5 2024 1 2 ].

(** A server over an endless feed [f] that never fails and answers its
    [t]-th request with page [t] at [cap] entries a page. *)
Definition endless (f : nat -> entry) (cap : nat) : network :=
  fun t _ => Some {| entries := List.map f (seq (t * cap) cap) |}.

(** An endless well-formed feed: [january], then entries of 1 January. *)
Definition forever (i : nat) : entry :=
  nth i january (entry_on (Z.of_nat i + 1) 2024 1 1).

(** A server whose page 0 of query [q] at one entry a page is empty and
    whose page 1 holds one entry. *)
Definition gap : network :=
  table [ (search_url "q" 0 1, []);
          (search_url "q" 1 1, [entry_on 1 2024 1 10]) ].

(** The records of [january]. *)
Definition january_records : list Paper :=
  [ record_on 1 2024 1 10; record_on 2 2024 1 9; record_on 3 2024 1 8;
    record_on 4 2024 1 3; record_on 5 2024 1 2 ].

(** The records of [forever]. *)
Definition forever_record (i : nat) : Paper :=
  nth i january_records (record_on (Z.of_nat i + 1) 2024 1 1).

(** An entry dated 29 February of a year that is not a leap year, and one
    whose publication tuple has two fields. *)
Definition leapless : entry :=
  {| entry_id := Some "i"; entry_title := Some "t";
     entry_authors := Some []; entry_summary := Some "s";
     entry_published_parsed := Some [2023; 2; 29; 0; 0; 0; 2; 60; 0];
     entry_updated_parsed := Some [2023; 3; 1; 0; 0; 0; 2; 60; 0] |}.

Definition short_date : entry :=
  {| entry_id := Some "i"; entry_title := Some "t";
     entry_authors := Some []; entry_summary := Some "s";
     entry_published_parsed := Some [2023; 2];
     entry_updated_parsed := Some [2023; 3; 1; 0; 0; 0; 2; 60; 0] |}.

(** A server that is down. *)
Definition down : network := fun _ _ => None.

End Fixture.

(** ** More vocabulary for the statements *)

(** Every character of [s] passes [f]. *)
Fixpoint all_chars (f : ascii -> bool) (s : string) : bool :=
  match s with
  | EmptyString => true
  | String c s' => f c && all_chars f s'
  end.

(** [s] holds none of the four characters the escaping rewrites. *)
Definition url_safe (s : string) : bool :=
  all_chars (fun c => negb (reserved c)) s.

(** [url] asks for some page of query [q] at [cap] entries a page. *)
Definition is_page_url (q : string) (cap : Z) (url : string) : Prop :=
  exists page, 0 <= page /\ url = search_url q page cap.

(** A frame the body of [query] can be in: page and count are never
    negative. *)
Definition frame_ok (f : frame) : Prop :=
  match f with
  | Suspended page count _ _ => 0 <= page /\ 0 <= count
  | Created | Finished => True
  end.

(** ** The collection store ([sieve/backend.py]) *)

Module Backend.

Record Tag : Type := {
  atoms : list string;
  items : list string
}.

Record Collection : Type := {
  query_string : string;
  date_updated : datetime;
  papers : list Paper;
  tags : list Tag
}.

Record FileBackend : Type := {
  filepath : string;
  collection : Collection
}.

(** [FileBackend.papers]: everything the generator yields. *)
Definition all_papers (b : FileBackend) : list Paper := papers (collection b).

(** [FileBackend.tags]. *)
Definition all_tags (b : FileBackend) : list Tag := tags (collection b).

(** [FileBackend.ids]. *)
Definition ids (b : FileBackend) : list string := List.map id (all_papers b).

(** What [return Paper] hands back: the class, not the record found. *)
Inductive class_object : Type := PaperClass.

(** The loop of [FileBackend.paper] over the papers still to come. *)
Fixpoint paper_scan (ps : list Paper) (i : string) : result class_object :=
  match ps with
  | [] => Raise ValueError
  | p :: ps' => if String.eqb (id p) i then Ok PaperClass else paper_scan ps' i
  end.

(** [FileBackend.paper]. *)
Definition paper (b : FileBackend) (i : string) : result class_object :=
  paper_scan (all_papers b) i.

End Backend.

(** * Properties *)

(** ** Strings *)

Section StrFacts.

Lemma prefix_empty (s : string) : prefix EmptyString s = true.
Proof. destruct s; reflexivity. Qed.

Lemma expand_app (f : ascii -> string) (a b : string) :
  Str.expand f (a ++ b) = Str.expand f a ++ Str.expand f b.
Proof.
  induction a as [|c a IH]; simpl; [reflexivity|].
  rewrite IH. induction (f c) as [|d r IHr]; simpl; [reflexivity|].
  now rewrite IHr.
Qed.

Lemma expand_ext (f h : ascii -> string) (s : string) :
  (forall c, f c = h c) -> Str.expand f s = Str.expand h s.
Proof.
  intros E. induction s as [|c s IH]; simpl; [reflexivity|].
  now rewrite E, IH.
Qed.

Lemma expand_expand (f h : ascii -> string) (s : string) :
  Str.expand f (Str.expand h s) = Str.expand (fun c => Str.expand f (h c)) s.
Proof.
  induction s as [|c s IH]; simpl; [reflexivity|].
  now rewrite expand_app, IH.
Qed.

Lemma expand_singleton (f : ascii -> ascii) (s : string) :
  Str.expand (fun c => String (f c) EmptyString) s = Str.map f s.
Proof.
  induction s as [|c s IH]; simpl; [reflexivity|]. now rewrite IH.
Qed.

(** Replacing a one-character pattern rewrites the string character by
    character. *)
Lemma replace_char (a : ascii) (new s : string) :
  Str.replace (String a EmptyString) new s
  = Str.expand (fun c => if Ascii.eqb c a then new else String c EmptyString) s.
Proof.
  unfold Str.replace.
  induction s as [|c s IH]; [reflexivity|].
  cbn [Str.replace_from Str.expand String.length Nat.sub prefix].
  destruct (ascii_dec a c) as [->|Hne].
  - rewrite prefix_empty, Ascii.eqb_refl. now rewrite IH.
  - assert (Ascii.eqb c a = false) as -> by (apply Ascii.eqb_neq; congruence).
    now rewrite IH.
Qed.

Lemma mem_app (c : ascii) (a b : string) :
  Str.mem c (a ++ b) = Str.mem c a || Str.mem c b.
Proof.
  induction a as [|d a IH]; simpl; [reflexivity|].
  now rewrite IH, orb_assoc.
Qed.

End StrFacts.

(** ** [html_escaping] *)

Lemma html_escaping_sequential (s : string) :
  html_escaping s
  = Str.replace ")" "%29"
      (Str.replace "(" "%28"
         (Str.replace " " "+"
            (Str.replace (String dquote EmptyString) "%22" s))).
Proof. reflexivity. Qed.

Lemma html_escaping_pointwise (s : string) :
  html_escaping s = Str.expand escape_char s.
Proof.
  rewrite html_escaping_sequential, !replace_char, !expand_expand.
  apply expand_ext. intros c.
  destruct c as [[] [] [] [] [] [] [] []]; reflexivity.
Qed.

Lemma escape_char_fixed (c : ascii) :
  Str.expand escape_char (escape_char c) = escape_char c.
Proof. destruct c as [[] [] [] [] [] [] [] []]; reflexivity. Qed.

Lemma escape_char_unreserved (c d : ascii) :
  Str.mem c (escape_char d) = true -> reserved c = false.
Proof.
  unfold escape_char.
  destruct (Ascii.eqb d dquote) eqn:E1;
    [|destruct (Ascii.eqb d " ") eqn:E2;
      [|destruct (Ascii.eqb d "(") eqn:E3;
        [|destruct (Ascii.eqb d ")") eqn:E4]]];
    cbn [Str.mem]; rewrite ?orb_false_r; intros H;
    repeat (apply orb_true_iff in H; destruct H as [H|H]);
    apply Ascii.eqb_eq in H; subst c; try reflexivity.
  unfold reserved. now rewrite E1, E2, E3, E4.
Qed.

(** C8.  [html_escaping] is the four literal replacements applied one after
    the other in the order double quote, space, opening parenthesis, closing
    parenthesis; the result is the input with each of those four characters
    replaced by its code and every other character unchanged; and the
    example [A (test) "x"] escapes to [A+%28test%29+%22x%22]. *)
Theorem html_escaping_table :
  (forall s,
     html_escaping s
     = Str.replace ")" "%29"
         (Str.replace "(" "%28"
            (Str.replace " " "+"
               (Str.replace (String dquote EmptyString) "%22" s))))
  /\ (forall s, html_escaping s = Str.expand escape_char s)
  /\ (escape_char dquote = "%22" /\ escape_char " " = "+"
      /\ escape_char "(" = "%28" /\ escape_char ")" = "%29")
  /\ (forall c, reserved c = false -> escape_char c = String c EmptyString)
  /\ html_escaping ("A (test) " ++ String dquote "x" ++ String dquote EmptyString)
     = "A+%28test%29+%22x%22".
Proof.
  split; [exact html_escaping_sequential|].
  split; [exact html_escaping_pointwise|].
  split; [repeat split|].
  split; [|reflexivity].
  intros c Hc. unfold reserved in Hc. unfold escape_char.
  destruct (Ascii.eqb c dquote); [discriminate|].
  destruct (Ascii.eqb c " "); [discriminate|].
  destruct (Ascii.eqb c "("); [discriminate|].
  destruct (Ascii.eqb c ")"); [discriminate|reflexivity].
Qed.

(** C9.  [html_escaping] is idempotent, and its output holds none of the
    four characters it rewrites. *)
Theorem html_escaping_idempotent :
  (forall s, html_escaping (html_escaping s) = html_escaping s)
  /\ (forall s c, Str.mem c (html_escaping s) = true -> reserved c = false).
Proof.
  split.
  - intros s. rewrite !html_escaping_pointwise, expand_expand.
    apply expand_ext, escape_char_fixed.
  - intros s c. rewrite html_escaping_pointwise.
    induction s as [|d s IH]; simpl; [discriminate|].
    rewrite mem_app. intros H. apply orb_true_iff in H as [H|H].
    + now apply escape_char_unreserved with d.
    + now apply IH.
Qed.

(** ** [get_feed] *)

Section Retry.

Variable urlopen : network.
Variable url : string.
Variable scaling : Q.

Lemma after_failures_zero (w : world) (a : nat) :
  after_failures url scaling w a 0 = w.
Proof.
  destruct w as [r s]. unfold after_failures. simpl. now rewrite !app_nil_r.
Qed.

Lemma after_failures_succ (w : world) (a n : nat) :
  after_failures url scaling
    (log_sleep (backoff_delay scaling a) (log_request url w)) (S a) n
  = after_failures url scaling w a (S n).
Proof.
  unfold after_failures, log_sleep, log_request. simpl.
  now rewrite <- !app_assoc.
Qed.

Lemma requests_after_attempt (w : world) (d : Q) (i : nat) :
  (List.length (requests (log_sleep d (log_request url w))) + i
   = List.length (requests w) + S i)%nat.
Proof. simpl. rewrite length_app. simpl. lia. Qed.

(** One failed attempt whose delay [sleep] accepts. *)
Lemma get_feed_loop_failed (a : nat) (tries : list nat) (w : world) :
  urlopen (List.length (requests w)) url = None ->
  sleepable (backoff_delay scaling a) = true ->
  get_feed_loop urlopen url scaling (a :: tries) w
  = get_feed_loop urlopen url scaling tries
      (log_sleep (backoff_delay scaling a) (log_request url w)).
Proof.
  intros Hnone Hs. cbn [get_feed_loop]. rewrite Hnone. unfold sleep.
  change (3 * scaling ^ Z.of_nat a)%Q with (backoff_delay scaling a).
  now rewrite Hs.
Qed.

(** Every attempt fails: the loop runs the range out, sleeping after each
    attempt, and raises. *)
Lemma get_feed_loop_exhausted (n a : nat) (w : world) :
  (forall i, (i < n)%nat ->
     urlopen (List.length (requests w) + i)%nat url = None) ->
  (forall i, (i < n)%nat -> sleepable (backoff_delay scaling (a + i)) = true) ->
  get_feed_loop urlopen url scaling (seq a n) w
  = (Raise ValueError, after_failures url scaling w a n).
Proof.
  revert a w. induction n as [|n IH]; intros a w H Hs.
  - simpl. now rewrite after_failures_zero.
  - cbn [seq].
    pose proof (H 0%nat ltac:(lia)) as H0. rewrite Nat.add_0_r in H0.
    pose proof (Hs 0%nat ltac:(lia)) as Hs0. rewrite Nat.add_0_r in Hs0.
    rewrite get_feed_loop_failed by assumption.
    rewrite IH, after_failures_succ; [reflexivity| |].
    + intros i Hi. rewrite requests_after_attempt. apply H. lia.
    + intros i Hi. replace (S a + i)%nat with (a + S i)%nat by lia.
      apply Hs. lia.
Qed.

(** The first [k] attempts fail and the next one succeeds. *)
Lemma get_feed_loop_recovers (k n a : nat) (w : world) (data : feed) :
  (k < n)%nat ->
  (forall i, (i < k)%nat ->
     urlopen (List.length (requests w) + i)%nat url = None) ->
  (forall i, (i < k)%nat -> sleepable (backoff_delay scaling (a + i)) = true) ->
  urlopen (List.length (requests w) + k)%nat url = Some data ->
  get_feed_loop urlopen url scaling (seq a n) w
  = (Ok data, log_request url (after_failures url scaling w a k)).
Proof.
  revert n a w. induction k as [|k IH]; intros n a w Hk Hfail Hs Hok.
  - destruct n as [|n]; [lia|]. cbn [seq get_feed_loop].
    rewrite Nat.add_0_r in Hok. rewrite Hok.
    now rewrite after_failures_zero.
  - destruct n as [|n]; [lia|]. cbn [seq].
    pose proof (Hfail 0%nat ltac:(lia)) as H0. rewrite Nat.add_0_r in H0.
    pose proof (Hs 0%nat ltac:(lia)) as Hs0. rewrite Nat.add_0_r in Hs0.
    rewrite get_feed_loop_failed by assumption.
    rewrite (IH n (S a)), after_failures_succ; [reflexivity|lia| | |].
    + intros i Hi. rewrite requests_after_attempt. apply Hfail. lia.
    + intros i Hi. replace (S a + i)%nat with (a + S i)%nat by lia.
      apply Hs. lia.
    + rewrite requests_after_attempt. exact Hok.
Qed.

(** The first [j + 1] attempts fail and [sleep] refuses the delay after
    the last of them: what [sleep] raises leaves the loop. *)
Lemma get_feed_loop_sleep_raises (j n a : nat) (w : world) :
  (j < n)%nat ->
  (forall i, (i <= j)%nat ->
     urlopen (List.length (requests w) + i)%nat url = None) ->
  (forall i, (i < j)%nat -> sleepable (backoff_delay scaling (a + i)) = true) ->
  sleepable (backoff_delay scaling (a + j)) = false ->
  get_feed_loop urlopen url scaling (seq a n) w
  = (Raise (sleep_error (backoff_delay scaling (a + j))),
     log_request url (after_failures url scaling w a j)).
Proof.
  revert n a w. induction j as [|j IH]; intros n a w Hj Hfail Hs Hbad.
  - destruct n as [|n]; [lia|]. cbn [seq get_feed_loop].
    pose proof (Hfail 0%nat ltac:(lia)) as H0. rewrite Nat.add_0_r in H0.
    rewrite H0. unfold sleep.
    change (3 * scaling ^ Z.of_nat a)%Q with (backoff_delay scaling a).
    rewrite Nat.add_0_r in Hbad. rewrite Hbad, Nat.add_0_r.
    now rewrite after_failures_zero.
  - destruct n as [|n]; [lia|]. cbn [seq].
    pose proof (Hfail 0%nat ltac:(lia)) as H0. rewrite Nat.add_0_r in H0.
    pose proof (Hs 0%nat ltac:(lia)) as Hs0. rewrite Nat.add_0_r in Hs0.
    rewrite get_feed_loop_failed by assumption.
    rewrite (IH n (S a)), after_failures_succ.
    + now replace (S a + j)%nat with (a + S j)%nat by lia.
    + lia.
    + intros i Hi. rewrite requests_after_attempt. apply Hfail. lia.
    + intros i Hi. replace (S a + i)%nat with (a + S i)%nat by lia.
      apply Hs. lia.
    + now replace (S a + j)%nat with (a + S j)%nat by lia.
Qed.

Lemma fold_right_Qplus_app (a b : list Q) :
  (fold_right Qplus 0 (a ++ b) == fold_right Qplus 0 a + fold_right Qplus 0 b)%Q.
Proof.
  induction a as [|x a IH]; simpl.
  - now rewrite Qplus_0_l.
  - rewrite IH. now rewrite Qplus_assoc.
Qed.

Lemma total_sleep_after_failures (w : world) (n : nat) :
  (total_sleep (after_failures url scaling w 0 n)
   == total_sleep w + backoff_sum scaling n)%Q.
Proof.
  unfold total_sleep, backoff_sum, backoff_delays, after_failures. simpl.
  apply fold_right_Qplus_app.
Qed.

End Retry.

(** C4 (as the code behaves).  Take a scaling whose delays [3 * scaling^i]
    after the failed attempts are delays [sleep] accepts.  If the first
    [k < max_tries] attempts of [get_feed] fail and the next succeeds, it
    returns that parse after [k + 1] requests, having slept [3 * scaling^i]
    after failed attempt [i], the sum of those for [i] in [0..k-1] in all.
    If all [max_tries] attempts fail it raises [ValueError] after exactly
    [max_tries] requests. *)
Theorem get_feed_retry (urlopen : network) (url : string) (scaling : Q)
    (max_tries : Z) (w : world) :
  (forall (k : nat) (data : feed),
     Z.of_nat k < max_tries ->
     (forall i, (i < k)%nat -> sleepable (backoff_delay scaling i) = true) ->
     (forall i, (i < k)%nat ->
        urlopen (List.length (requests w) + i)%nat url = None) ->
     urlopen (List.length (requests w) + k)%nat url = Some data ->
     exists w',
       get_feed urlopen url scaling max_tries w = (Ok data, w')
       /\ requests w' = (requests w ++ repeat url (S k))%list
       /\ sleeps w' = (sleeps w ++ backoff_delays scaling k)%list
       /\ (total_sleep w' == total_sleep w + backoff_sum scaling k)%Q)
  /\ ((forall i, (Z.of_nat i < max_tries) ->
        sleepable (backoff_delay scaling i) = true) ->
      (forall i, (Z.of_nat i < max_tries) ->
        urlopen (List.length (requests w) + i)%nat url = None) ->
      exists w',
        get_feed urlopen url scaling max_tries w = (Raise ValueError, w')
        /\ requests w' = (requests w ++ repeat url (Z.to_nat max_tries))%list
        /\ sleeps w' = (sleeps w ++ backoff_delays scaling (Z.to_nat max_tries))%list).
Proof.
  split.
  - intros k data Hk Hs Hfail Hok.
    exists (log_request url (after_failures url scaling w 0 k)).
    unfold get_feed.
    rewrite (get_feed_loop_recovers urlopen url scaling k _ 0 w data)
      by (assumption || lia).
    split; [reflexivity|]. split; [|split].
    + cbn [log_request after_failures requests].
      rewrite <- app_assoc. f_equal.
      change (S k) with (1 + k)%nat. rewrite Nat.add_comm, repeat_app.
      reflexivity.
    + reflexivity.
    + apply (total_sleep_after_failures url scaling w k).
  - intros Hs Hfail.
    exists (after_failures url scaling w 0 (Z.to_nat max_tries)).
    unfold get_feed.
    rewrite get_feed_loop_exhausted; [repeat split| |].
    + intros i Hi. apply Hfail. lia.
    + intros i Hi. apply Hs. lia.
Qed.

Lemma get_feed_retry_witness :
  (exists w',
     get_feed (Fixture.flaky 3 {| entries := Fixture.january |}) "u" (3 # 2) 10
       fresh
     = (Ok {| entries := Fixture.january |}, w')
     /\ requests w' = ["u"; "u"; "u"; "u"]
     /\ sleeps w' = backoff_delays (3 # 2) 3
     /\ (total_sleep w' == total_sleep fresh + backoff_sum (3 # 2) 3)%Q)
  /\ (exists w',
        get_feed Fixture.down "u" (3 # 2) 2 fresh = (Raise ValueError, w')
        /\ requests w' = ["u"; "u"]
        /\ sleeps w' = backoff_delays (3 # 2) 2).
Proof.
  split.
  - apply (proj1 (get_feed_retry
                    (Fixture.flaky 3 {| entries := Fixture.january |})
                    "u" (3 # 2) 10 fresh) 3%nat {| entries := Fixture.january |}).
    + lia.
    + intros i Hi.
      assert (i = 0 \/ i = 1 \/ i = 2)%nat as [->|[->| ->]] by lia;
        reflexivity.
    + intros i Hi. unfold Fixture.flaky. simpl.
      destruct (Nat.ltb_spec i 3) as [_|Hge]; [reflexivity|lia].
    + reflexivity.
  - apply (proj2 (get_feed_retry Fixture.down "u" (3 # 2) 2 fresh)).
    + intros i Hi.
      assert (i = 0 \/ i = 1)%nat as [->| ->] by lia; reflexivity.
    + intros i _. reflexivity.
Defined.

(** C4 as stated fails for a negative scaling.  With [scaling = -3/2] and a
    server that fails twice and then answers, the second delay is [-9/2]:
    [sleep] raises [ValueError] inside the handler and [get_feed] raises
    after two requests and one sleep, the answer never asked for. *)
Lemma negative_scaling_raises :
  get_feed (Fixture.flaky 2 {| entries := Fixture.january |}) "u" (- 3 # 2) 10
    fresh
  = (Raise ValueError,
     {| requests := ["u"; "u"]; sleeps := backoff_delays (- 3 # 2) 1 |})
  /\ Fixture.flaky 2 {| entries := Fixture.january |} 2%nat "u"
     = Some {| entries := Fixture.january |}
  /\ (backoff_delay (- 3 # 2) 1 == - 9 # 2)%Q.
Proof. repeat split. Qed.

(** ** [paper_from_arxiv_entry] *)

Section SplitFacts.

Lemma append_empty_r (s : string) : s ++ EmptyString = s.
Proof. induction s as [|c s IH]; simpl; [reflexivity|now rewrite IH]. Qed.

Lemma append_assoc (a b c : string) : (a ++ b) ++ c = a ++ (b ++ c).
Proof. induction a as [|x a IH]; simpl; [reflexivity|now rewrite IH]. Qed.

Lemma has_space_app (a b : string) :
  Str.has_space (a ++ b) = Str.has_space a || Str.has_space b.
Proof.
  induction a as [|c a IH]; simpl; [reflexivity|].
  now rewrite IH, orb_assoc.
Qed.

Lemma flush_word (w : string) : w <> EmptyString -> Str.flush w = [w].
Proof. destruct w; [congruence|reflexivity]. Qed.

Lemma flush_words (w : string) :
  Str.has_space w = false -> Forall Str.is_word (Str.flush w).
Proof.
  intros H. destruct w as [|c w]; simpl; constructor; [|constructor].
  split; [discriminate|exact H].
Qed.

(** Every item [split] returns is a word. *)
Lemma split_from_words (s word : string) :
  Str.has_space word = false -> Forall Str.is_word (Str.split_from word s).
Proof.
  revert word. induction s as [|c s IH]; intros word Hw; simpl.
  - now apply flush_words.
  - destruct (Str.is_space c) eqn:Ec.
    + apply Forall_app. split; [now apply flush_words|now apply IH].
    + apply IH. rewrite has_space_app. simpl. now rewrite Hw, Ec.
Qed.

(** Scanning over a stretch free of whitespace only grows the word. *)
Lemma split_from_stretch (w word s : string) :
  Str.has_space w = false ->
  Str.split_from word (w ++ s) = Str.split_from (word ++ w) s.
Proof.
  revert word. induction w as [|c w IH]; intros word Hw; simpl.
  - now rewrite append_empty_r.
  - simpl in Hw. apply orb_false_iff in Hw as [Hc Hw].
    rewrite Hc, IH by assumption.
    now rewrite append_assoc.
Qed.

(** [split] undoes [join] on words. *)
Lemma split_join (ws : list string) :
  Forall Str.is_word ws -> Str.split (Str.join " " ws) = ws.
Proof.
  unfold Str.split, Str.join.
  induction ws as [|w ws IH]; intros H; [reflexivity|].
  inversion H as [|? ? [Hne Hsp] Hws]; subst.
  destruct ws as [|w' ws].
  - simpl. rewrite <- (append_empty_r w) at 1.
    rewrite split_from_stretch by assumption. simpl.
    now apply flush_word.
  - change (String.concat " " (w :: w' :: ws))
      with (w ++ " " ++ String.concat " " (w' :: ws)).
    rewrite split_from_stretch by assumption.
    cbn [append Str.split_from]. change (Str.is_space " ") with true.
    cbn iota. rewrite flush_word by assumption.
    simpl app. f_equal. now apply IH.
Qed.

Lemma collapsed_from_stretch (w s : string) (prev : bool) :
  Str.is_word w ->
  Str.collapsed_from prev (w ++ s) = Str.collapsed_from false s.
Proof.
  intros [Hne Hsp]. revert prev.
  induction w as [|c w IH]; intros prev; [congruence|].
  simpl in Hsp. apply orb_false_iff in Hsp as [Hc Hw].
  simpl. rewrite Hc.
  destruct w as [|d w]; [reflexivity|].
  apply IH; [discriminate|assumption].
Qed.

Lemma collapsed_from_join (ws : list string) :
  ws <> [] -> Forall Str.is_word ws ->
  Str.collapsed_from true (Str.join " " ws) = true.
Proof.
  unfold Str.join.
  induction ws as [|w ws IH]; intros Hne H; [congruence|].
  inversion H as [|? ? Hw Hws]; subst.
  destruct ws as [|w' ws].
  - simpl. rewrite <- (append_empty_r w).
    now rewrite collapsed_from_stretch.
  - change (String.concat " " (w :: w' :: ws))
      with (w ++ " " ++ String.concat " " (w' :: ws)).
    rewrite collapsed_from_stretch by assumption.
    cbn [append Str.collapsed_from]. change (Str.is_space " ") with true.
    cbn iota. rewrite Ascii.eqb_refl. simpl.
    apply IH; [discriminate|assumption].
Qed.

(** Joined words are whitespace-normal. *)
Lemma collapsed_join (ws : list string) :
  Forall Str.is_word ws -> Str.collapsed (Str.join " " ws) = true.
Proof.
  intros H. destruct ws as [|w ws]; [reflexivity|].
  pose proof (collapsed_from_join (w :: ws) ltac:(discriminate) H) as E.
  unfold Str.collapsed. now destruct (Str.join " " (w :: ws)).
Qed.

(** Turning newlines into spaces does not change the words. *)
Lemma split_from_newlines (s word : string) :
  Str.split_from word
    (Str.map (fun c => if Ascii.eqb c newline then " "%char else c) s)
  = Str.split_from word s.
Proof.
  revert word. induction s as [|c s IH]; intros word; [reflexivity|].
  simpl. destruct (Ascii.eqb c newline) eqn:E.
  - apply Ascii.eqb_eq in E. subst c.
    change (Str.is_space " ") with true. change (Str.is_space newline) with true.
    cbn iota. now rewrite IH.
  - destruct (Str.is_space c); now rewrite IH.
Qed.

Lemma replace_newlines (s : string) :
  Str.replace (String newline EmptyString) " " s
  = Str.map (fun c => if Ascii.eqb c newline then " "%char else c) s.
Proof.
  rewrite replace_char, <- expand_singleton.
  apply expand_ext. intros c. now destruct (Ascii.eqb c newline).
Qed.

Lemma comprehension_names (names : list string) :
  comprehension (fun a => getitem (author_name a))
    (List.map (fun n => {| author_name := Some n |}) names)
  = Ok names.
Proof.
  induction names as [|n names IH]; [reflexivity|].
  simpl. now rewrite IH.
Qed.

End SplitFacts.

(** The title and the abstract of a record come from the entry's [title]
    and [summary]. *)
Lemma paper_text (e : entry) (p : Paper) :
  paper_from_arxiv_entry e = Ok p ->
  exists t s,
    entry_title e = Some t /\ entry_summary e = Some s
    /\ title p
       = Str.join " " (Str.split (Str.replace (String newline EmptyString) " " t))
    /\ abstract p = Str.replace (String newline EmptyString) " " s.
Proof.
  unfold paper_from_arxiv_entry.
  destruct (entry_id e) as [i|]; [|discriminate].
  destruct (entry_title e) as [t|]; [|discriminate].
  destruct (entry_authors e) as [au|]; [|discriminate].
  cbn [getitem bind].
  destruct (comprehension _ au) as [names|]; [|discriminate].
  destruct (entry_summary e) as [s|]; [|discriminate].
  destruct (entry_published_parsed e) as [pp|]; [|discriminate].
  cbn [getitem bind].
  destruct (mk_datetime (firstn 6 pp)) as [dp|]; [|discriminate].
  destruct (entry_updated_parsed e) as [up|]; [|discriminate].
  cbn [getitem bind].
  destruct (mk_datetime (firstn 6 up)) as [du|]; [|discriminate].
  cbn [bind]. intros [= <-]. exists t, s. repeat split.
Qed.

(** C7.  On a well-formed entry the normaliser succeeds.  The title of the
    record is whitespace-normal (trimmed, single spaces only) and has the
    words of the entry's title; the abstract is the summary with each
    newline turned into a space and nothing else changed; the authors are
    the names in feed order; each timestamp is made of the first six fields
    of its tuple; the embedding is absent.  The two examples of the
    design document evaluate as it says. *)
Theorem paper_from_arxiv_entry_normalises
    (i t s : string) (names : list string)
    (y m d h mi sec : Z) (more : list Z)
    (y' m' d' h' mi' sec' : Z) (more' : list Z) :
  fields_in_range y m d h mi sec 0 = true ->
  fields_in_range y' m' d' h' mi' sec' 0 = true ->
  let e := {| entry_id := Some i;
              entry_title := Some t;
              entry_authors :=
                Some (List.map (fun n => {| author_name := Some n |}) names);
              entry_summary := Some s;
              entry_published_parsed := Some (y :: m :: d :: h :: mi :: sec :: more);
              entry_updated_parsed :=
                Some (y' :: m' :: d' :: h' :: mi' :: sec' :: more') |} in
  (exists p,
     paper_from_arxiv_entry e = Ok p
     /\ id p = i
     /\ Str.collapsed (title p) = true
     /\ Str.split (title p) = Str.split t
     /\ abstract p
        = Str.map (fun c => if Ascii.eqb c newline then " "%char else c) s
     /\ authors p = names
     /\ date_published p
        = {| year := y; month := m; day := d; hour := h; minute := mi;
             second := sec; microsecond := 0 |}
     /\ date_updated p
        = {| year := y'; month := m'; day := d'; hour := h'; minute := mi';
             second := sec'; microsecond := 0 |}
     /\ embedding p = None)
  /\ (forall e' p',
        paper_from_arxiv_entry e' = Ok p' ->
        (entry_title e' = Some ("A" ++ String newline "  B   C") ->
         title p' = "A B C")
        /\ (entry_summary e' = Some ("line1" ++ String newline "line2") ->
            abstract p' = "line1 line2")).
Proof.
  intros Hp Hu e. split.
  - unfold paper_from_arxiv_entry. subst e.
    cbn [entry_id entry_title entry_authors entry_summary
         entry_published_parsed entry_updated_parsed getitem bind].
    rewrite comprehension_names. cbn [bind firstn].
    unfold mk_datetime. cbn [List.length Z.of_nat nth].
    change (7 <? Z.of_nat 6) with false. cbn iota.
    rewrite Hp, Hu. cbn [bind].
    eexists. split; [reflexivity|].
    cbn [id title abstract authors date_published date_updated embedding].
    split; [reflexivity|].
    split; [apply collapsed_join, split_from_words; reflexivity|].
    split.
    { rewrite split_join by (apply split_from_words; reflexivity).
      rewrite replace_newlines. apply split_from_newlines. }
    split; [apply replace_newlines|].
    repeat split.
  - intros e' p' H.
    destruct (paper_text e' p' H) as (t' & s' & Ht & Hs & -> & ->).
    split; intros E.
    + rewrite Ht in E. injection E as ->. reflexivity.
    + rewrite Hs in E. injection E as ->. reflexivity.
Qed.

Lemma paper_from_arxiv_entry_normalises_witness :
  fields_in_range 2024 2 29 23 59 59 0 = true
  /\ fields_in_range 2024 3 1 0 0 0 0 = true
  /\ exists p,
       paper_from_arxiv_entry
         {| entry_id := Some "http://arxiv.org/abs/2402.00001v1";
            entry_title := Some ("A" ++ String newline "  B   C");
            entry_authors :=
              Some (List.map (fun n => {| author_name := Some n |})
                      ["Ada"; "Bob"]);
            entry_summary := Some ("line1" ++ String newline "line2");
            entry_published_parsed := Some [2024; 2; 29; 23; 59; 59; 3; 60; 0];
            entry_updated_parsed := Some [2024; 3; 1; 0; 0; 0; 4; 61; 0] |}
       = Ok p
       /\ Str.collapsed (title p) = true
       /\ authors p = ["Ada"; "Bob"]
       /\ embedding p = None.
Proof.
  split; [reflexivity|]. split; [reflexivity|].
  destruct (proj1 (paper_from_arxiv_entry_normalises
              "http://arxiv.org/abs/2402.00001v1"
              ("A" ++ String newline "  B   C")
              ("line1" ++ String newline "line2")
              ["Ada"; "Bob"]
              2024 2 29 23 59 59 [3; 60; 0]
              2024 3 1 0 0 0 [4; 61; 0]
              eq_refl eq_refl))
    as (p & Hp & _ & Hc & _ & _ & Ha & _ & _ & He).
  exists p. repeat split; assumption.
Defined.

(** ** [query] *)

Section QueryFacts.

Variable urlopen : network.

(** A request answered at the first attempt. *)
Lemma get_feed_first_try (url : string) (w : world) (data : feed) :
  urlopen (List.length (requests w)) url = Some data ->
  get_feed urlopen url default_backoff_scaling default_max_tries w
  = (Ok data, log_request url w).
Proof.
  intros H. unfold get_feed, default_max_tries.
  change (seq 0 (Z.to_nat 10)) with (0 :: seq 1 9)%nat.
  cbn [get_feed_loop]. now rewrite H.
Qed.

Lemma log_requests_nil (w : world) : log_requests [] w = w.
Proof. destruct w. unfold log_requests. simpl. now rewrite app_nil_r. Qed.

Lemma log_requests_cons (url : string) (urls : list string) (w : world) :
  log_requests urls (log_request url w) = log_requests (url :: urls) w.
Proof.
  unfold log_requests, log_request. simpl. now rewrite <- app_assoc.
Qed.

(** A page without entries: the loop goes round to the next page. *)
Lemma while_true_empty_page (g : generator) (m : Z) (fuel : nat)
    (page count : Z) (w w' : world) (data : feed) :
  max_results g = Some m ->
  get_feed urlopen (search_url (query_string g) page (Z.min m 1000))
    default_backoff_scaling default_max_tries w = (Ok data, w') ->
  entries data = [] ->
  while_true urlopen g (S fuel) page count w
  = while_true urlopen g fuel (page + 1) count w'.
Proof.
  intros Hm Hget He. cbn [while_true]. rewrite Hm. cbn [py_min].
  rewrite Hget, He. reflexivity.
Qed.

(** A page with a well-formed first entry: the loop yields its record. *)
Lemma while_true_first_entry (g : generator) (m : Z) (fuel : nat)
    (page count : Z) (w w' : world) (data : feed) (e : entry)
    (rest : list entry) (p : Paper) :
  max_results g = Some m ->
  get_feed urlopen (search_url (query_string g) page (Z.min m 1000))
    default_backoff_scaling default_max_tries w = (Ok data, w') ->
  entries data = e :: rest ->
  paper_from_arxiv_entry e = Ok p ->
  while_true urlopen g (S fuel) page count w
  = (Yield p, at_frame g (Suspended page count p rest), w').
Proof.
  intros Hm Hget He Hp. cbn [while_true]. rewrite Hm. cbn [py_min].
  rewrite Hget, He. cbn [for_entries]. now rewrite Hp.
Qed.

End QueryFacts.

(** C1 (as the code behaves).  With [until] set and [max_results] absent the
    first [next] raises [TypeError] out of [min(max_results, 1000)], before
    any request; [FileBackend.update], which calls [query] this way, gets no
    record. *)
Theorem until_only_raises_type_error (urlopen : network) (q : string)
    (u : datetime) (fuel : nat) (w : world) :
  py_min None 1000 = Raise TypeError
  /\ next urlopen (query q (Some u) None) (S fuel) w
     = (Raised TypeError, at_frame (query q (Some u) None) Finished, w)
  /\ drain urlopen (S fuel) (query q (Some u) None) w
     = ([], Raised TypeError, w)
  /\ update urlopen (S fuel) q u w = ([], Raised TypeError, w).
Proof. repeat split. Qed.

(** C6 (as the code behaves).  With [until] and [max_results] both absent,
    calling [query] does not fail: it gives a generator none of whose body
    has run.  The first [next] on it raises [ValueError] at once, with no
    request made and no record produced. *)
Theorem no_stop_condition_raises (urlopen : network) (q : string)
    (fuel : nat) (w : world) :
  position (query q None None) = Created
  /\ next urlopen (query q None None) fuel w
     = (Raised ValueError, at_frame (query q None None) Finished, w)
  /\ drain urlopen (S fuel) (query q None None) w = ([], Raised ValueError, w).
Proof. repeat split. Qed.

(** C6 as stated fails: the call with both stop conditions absent gives
    a generator that stands before the guard, so the call itself raises
    nothing; the [ValueError] comes out of the first [next]. *)
Lemma calling_query_does_not_fail :
  position (query "cat:cs.LG" None None) = Created
  /\ next Fixture.down (query "cat:cs.LG" None None) 0 fresh
     = (Raised ValueError, at_frame (query "cat:cs.LG" None None) Finished,
        fresh).
Proof. repeat split. Qed.



(** A first entry that lacks a key is not normalised: the first [next]
    raises [KeyError] and no record is produced. *)
Example malformed_first_entry_raises :
  drain (Fixture.scripted [[Fixture.untitled]]) 2 (query "q" None (Some 5)) fresh
  = ([], Raised KeyError, log_request (search_url "q" 0 5) fresh).
Proof. reflexivity. Qed.

Section EmptyPages.

Variable urlopen : network.
Variable g : generator.
Variable m : Z.
Hypothesis Hm : max_results g = Some m.

Let q : string := query_string g.
Let cap : Z := Z.min m 1000.

(** Over pages that are all empty the loop only ever asks for the next
    page. *)
Lemma while_true_all_empty :
  (forall t url, urlopen t url = Some {| entries := [] |}) ->
  forall (fuel first : nat) (count : Z) (w : world),
    while_true urlopen g fuel (Z.of_nat first) count w
    = (OutOfFuel, g, log_requests (page_urls q cap first fuel) w).
Proof.
  intros Hnet. induction fuel as [|fuel IH]; intros first count w.
  - simpl. unfold page_urls. simpl. now rewrite log_requests_nil.
  - rewrite (while_true_empty_page urlopen g m fuel _ count w
               (log_request (search_url q (Z.of_nat first) cap) w)
               {| entries := [] |} Hm);
      [|apply get_feed_first_try, Hnet|reflexivity].
    replace (Z.of_nat first + 1) with (Z.of_nat (S first)) by lia.
    rewrite IH, log_requests_cons. reflexivity.
Qed.

(** Past [j] empty pages the loop yields the first record of the page that
    follows them. *)
Lemma while_true_skips_empty (j : nat) (e : entry) (rest : list entry)
    (r : Paper) :
  forall (first : nat),
    (forall t p, (first <= p < first + j)%nat ->
       urlopen t (search_url q (Z.of_nat p) cap) = Some {| entries := [] |}) ->
    (forall t, urlopen t (search_url q (Z.of_nat (first + j)) cap)
               = Some {| entries := e :: rest |}) ->
    paper_from_arxiv_entry e = Ok r ->
    forall (fuel : nat) (count : Z) (w : world),
      (j < fuel)%nat ->
      while_true urlopen g fuel (Z.of_nat first) count w
      = (Yield r, at_frame g (Suspended (Z.of_nat (first + j)) count r rest),
         log_requests (page_urls q cap first (S j)) w).
Proof.
  induction j as [|j IH]; intros first Hempty Hfull Hr fuel count w Hfuel;
    (destruct fuel as [|fuel]; [lia|]).
  - rewrite Nat.add_0_r in *.
    rewrite (while_true_first_entry urlopen g m fuel _ count w
               (log_request (search_url q (Z.of_nat first) cap) w)
               {| entries := e :: rest |} e rest r Hm);
      [|apply get_feed_first_try, Hfull|reflexivity|assumption].
    unfold page_urls. simpl. reflexivity.
  - rewrite (while_true_empty_page urlopen g m fuel _ count w
               (log_request (search_url q (Z.of_nat first) cap) w)
               {| entries := [] |} Hm);
      [|apply get_feed_first_try, Hempty; lia|reflexivity].
    replace (Z.of_nat first + 1) with (Z.of_nat (S first)) by lia.
    rewrite (IH (S first)); try assumption; try lia.
    + rewrite log_requests_cons.
      replace (S first + j)%nat with (first + S j)%nat by lia. reflexivity.
    + intros t p Hp. apply Hempty. lia.
    + intros t. replace (S first + j)%nat with (first + S j)%nat by lia.
      apply Hfull.
Qed.

End EmptyPages.

(** ** Paging through a feed *)

Lemma skipn_nth_error {A : Type} (l : list A) (j : nat) (a : A) :
  nth_error l j = Some a -> skipn j l = a :: skipn (S j) l.
Proof.
  revert j. induction l as [|x l IH]; intros [|j] H; try discriminate.
  - now injection H as ->.
  - simpl in H. simpl. now apply IH.
Qed.

Section Paging.

Variable urlopen : network.
Variable q : string.
Variable u : option datetime.
Variable N : Z.

(** The feed behind the server, the records of its first [M] entries, and
    [M], the number of records the iteration is to produce. *)
Variable all : list entry.
Variable recs : list Paper.
Variable M : nat.

Let gen (pos : frame) : generator := at_frame (query q u (Some N)) pos.
Let cap : Z := Z.min N 1000.
Let capn : nat := Z.to_nat cap.

Hypothesis HN : 1 <= N.
Hypothesis HM : (1 <= M)%nat.
Hypothesis Hlen : List.length recs = M.

Hypothesis Hnorm : forall j, (j < M)%nat ->
  exists e r, nth_error all j = Some e /\ nth_error recs j = Some r
              /\ paper_from_arxiv_entry e = Ok r.

Hypothesis Hnet : forall t p, (p * capn < M)%nat ->
  urlopen t (search_url q (Z.of_nat p) cap)
  = Some {| entries := page_slice all capn p |}.

(** No stop condition fires before record [M - 1], one does there. *)
Hypothesis Hgo : forall j r, (S j < M)%nat -> nth_error recs j = Some r ->
  count_reached (gen Created) (Z.of_nat j + 1) = false
  /\ date_reached (gen Created) r = false.

Hypothesis Hstop : forall r, nth_error recs (M - 1) = Some r ->
  count_reached (gen Created) (Z.of_nat M) || date_reached (gen Created) r = true.

(** What is left of page [pg] after entry [j]. *)
Let tail (pg j : nat) : list entry :=
  firstn ((pg + 1) * capn - S j) (skipn (S j) all).

Lemma capn_pos : (1 <= capn)%nat.
Proof. unfold capn, cap. lia. Qed.

Lemma page_slice_head (pg : nat) (e : entry) :
  nth_error all (pg * capn) = Some e ->
  page_slice all capn pg = e :: tail pg (pg * capn).
Proof.
  intros He. unfold page_slice, tail.
  rewrite (skipn_nth_error all _ e He).
  pose proof capn_pos.
  replace ((pg + 1) * capn - S (pg * capn))%nat with (capn - 1)%nat by lia.
  destruct capn as [|c]; [lia|]. simpl. now rewrite Nat.sub_0_r.
Qed.

(** From the head of the loop at a page that starts before [M]. *)
Lemma while_true_page (pg : nat) (pos : frame) (fuel : nat) (count : Z)
    (w : world) (r : Paper) :
  (pg * capn < M)%nat ->
  nth_error recs (pg * capn) = Some r ->
  while_true urlopen (gen pos) (S fuel) (Z.of_nat pg) count w
  = (Yield r, gen (Suspended (Z.of_nat pg) count r (tail pg (pg * capn))),
     log_request (search_url q (Z.of_nat pg) cap) w).
Proof.
  intros Hpg Hr.
  destruct (Hnorm _ Hpg) as (e & r' & He & Hr' & Hp).
  rewrite Hr in Hr'. injection Hr' as <-.
  apply (while_true_first_entry urlopen (gen pos) N fuel _ count w _
           {| entries := page_slice all capn pg |} e _ r eq_refl).
  - apply get_feed_first_try, Hnet, Hpg.
  - cbn [entries]. now apply page_slice_head.
  - exact Hp.
Qed.

(** From inside page [pg], entry [j] next: it is on this page or opens the
    following one. *)
Lemma for_entries_reach (j pg : nat) (pos : frame) (fuel : nat) (count : Z)
    (w : world) (r : Paper) :
  (j < M)%nat ->
  (pg * capn <= j <= (pg + 1) * capn)%nat ->
  nth_error recs j = Some r ->
  exists pg' w',
    (pg' * capn <= j < (pg' + 1) * capn)%nat
    /\ for_entries (gen pos) (while_true urlopen (gen pos) (S fuel))
         (Z.of_nat pg) count
         (firstn ((pg + 1) * capn - j) (skipn j all)) w
       = (Yield r, gen (Suspended (Z.of_nat pg') count r (tail pg' j)), w').
Proof.
  intros Hj Hpg Hr.
  destruct (Nat.eq_dec j ((pg + 1) * capn)) as [E|E].
  - exists (pg + 1)%nat, (log_request (search_url q (Z.of_nat (pg + 1)) cap) w).
    pose proof capn_pos. split; [lia|].
    replace ((pg + 1) * capn - j)%nat with 0%nat by lia.
    cbn [firstn for_entries].
    replace (Z.of_nat pg + 1) with (Z.of_nat (pg + 1)) by lia.
    subst j. now apply while_true_page.
  - exists pg, w. split; [lia|].
    destruct (Hnorm _ Hj) as (e & r' & He & Hr' & Hp).
    rewrite Hr in Hr'. injection Hr' as <-.
    rewrite (skipn_nth_error all j e He).
    replace ((pg + 1) * capn - j)%nat with (S ((pg + 1) * capn - S j))%nat by lia.
    cbn [firstn for_entries]. rewrite Hp. reflexivity.
Qed.

Let outcome : stop_reason :=
  if count_reached (gen Created) (Z.of_nat M) then CountReached else DateReached.

(** One [next] on a suspended generator. *)
Lemma next_suspended (pg count : Z) (r : Paper) (rest : list entry)
    (fuel : nat) (w : world) :
  next urlopen (gen (Suspended pg count r rest)) fuel w
  = if count_reached (gen Created) (count + 1)
    then (Returned CountReached, gen Finished, w)
    else if date_reached (gen Created) r
         then (Returned DateReached, gen Finished, w)
         else for_entries (gen (Suspended pg count r rest))
                (while_true urlopen (gen (Suspended pg count r rest)) fuel)
                pg (count + 1) rest w.
Proof. reflexivity. Qed.

(** The iteration from its suspension after record [j]. *)
Lemma drain_suspended (rem : nat) :
  forall (j pg : nat) (r : Paper) (w : world) (pulls fuel : nat),
    (j + rem + 1 = M)%nat ->
    (pg * capn <= j < (pg + 1) * capn)%nat ->
    nth_error recs j = Some r ->
    (rem < pulls)%nat ->
    exists w',
      drain_from urlopen pulls (S fuel)
        (gen (Suspended (Z.of_nat pg) (Z.of_nat j) r (tail pg j))) w
      = (skipn (S j) recs, Returned outcome, w').
Proof.
  induction rem as [|rem IH]; intros j pg r w pulls fuel HjM Hpg Hr Hpulls;
    (destruct pulls as [|pulls]; [lia|]); cbn [drain_from];
    rewrite next_suspended.
  - replace (Z.of_nat j + 1) with (Z.of_nat M) by lia.
    assert (nth_error recs (M - 1) = Some r) as Hlast
      by (replace (M - 1)%nat with j by lia; exact Hr).
    pose proof (Hstop r Hlast) as Hs.
    rewrite skipn_all2 by lia. unfold outcome.
    destruct (count_reached (gen Created) (Z.of_nat M)).
    + eexists. reflexivity.
    + simpl in Hs. rewrite Hs. eexists. reflexivity.
  - destruct (Hgo j r ltac:(lia) Hr) as [Hc Hd].
    rewrite Hc, Hd.
    destruct (Hnorm (S j) ltac:(lia)) as (e & r' & He & Hr' & Hp).
    destruct (for_entries_reach (S j) pg
                (Suspended (Z.of_nat pg) (Z.of_nat j) r (tail pg j))
                fuel (Z.of_nat j + 1) w r' ltac:(lia) ltac:(lia) Hr')
      as (pg' & w' & Hpg' & Hfor).
    unfold tail at 3. rewrite Hfor.
    replace (Z.of_nat j + 1) with (Z.of_nat (S j)) by lia.
    destruct (IH (S j) pg' r' w' pulls fuel ltac:(lia) Hpg' Hr' ltac:(lia))
      as (w'' & Hrun).
    rewrite Hrun. exists w''.
    now rewrite (skipn_nth_error recs (S j) r' Hr').
Qed.

(** The whole iteration: the [M] records, then a [return]. *)
Lemma drain_paged (fuel : nat) (w : world) :
  (M < fuel)%nat ->
  exists w',
    drain urlopen fuel (query q u (Some N)) w = (recs, Returned outcome, w').
Proof.
  intros Hfuel. destruct fuel as [|fuel]; [lia|].
  unfold drain. cbn [drain_from]. unfold next.
  cbn [position query until max_results].
  replace (match u with Some _ | _ => _ end)
    with (while_true urlopen (gen Created) (S fuel) (Z.of_nat 0) 0 w)
    by now destruct u.
  destruct (Hnorm 0%nat ltac:(lia)) as (e & r & He & Hr & Hp).
  rewrite (while_true_page 0 Created fuel 0 w r) by (simpl; (lia || assumption)).
  destruct (drain_suspended (M - 1) 0 0 r
              (log_request (search_url q (Z.of_nat 0) cap) w) fuel fuel
              ltac:(lia) ltac:(pose proof capn_pos; lia) Hr ltac:(lia))
    as (w' & Hrun).
  change (0 * capn)%nat with 0%nat. change (Z.of_nat 0) with 0 in Hrun |- *.
  rewrite Hrun. exists w'.
  pose proof (skipn_nth_error recs 0 r Hr) as E.
  change (skipn 0 recs) with recs in E. now rewrite <- E.
Qed.

End Paging.

(** ** Lists and dates *)

Lemma firstn_seq_more (n k a : nat) : firstn n (seq a (n + k)) = seq a n.
Proof.
  revert a. induction n as [|n IH]; intros a; [reflexivity|].
  simpl. now rewrite IH.
Qed.

Lemma page_slice_map_seq (f : nat -> entry) (cap p len : nat) :
  (p * cap + cap <= len)%nat ->
  page_slice (List.map f (seq 0 len)) cap p = List.map f (seq (p * cap) cap).
Proof.
  intros H. unfold page_slice.
  rewrite skipn_map, firstn_map, skipn_seq. f_equal.
  replace (len - p * cap)%nat with (cap + (len - p * cap - cap))%nat by lia.
  apply firstn_seq_more.
Qed.

Lemma nth_error_map_seq {A : Type} (f : nat -> A) (len j : nat) :
  (j < len)%nat -> nth_error (List.map f (seq 0 len)) j = Some (f j).
Proof.
  intros H. rewrite nth_error_map, nth_error_seq.
  destruct (Nat.ltb_spec j len); [reflexivity|lia].
Qed.








(** C5 (as the code behaves).  With [max_results = N], [N >= 1], over an
    endless well-formed feed served in pages of [min(N, 1000)], and with no
    record older than [until] among the first [N - 1], the iteration
    produces exactly the first [N] records and returns.  It returns by the
    count check even when record [N] is older than [until]: the count is
    checked first. *)
Theorem stop_by_count (urlopen : network) (q : string) (u : option datetime)
    (N : Z) (f : nat -> entry) (r : nat -> Paper) :
  1 <= N ->
  (forall i, (i < Z.to_nat N)%nat -> paper_from_arxiv_entry (f i) = Ok (r i)) ->
  (forall t p, (p * Z.to_nat (Z.min N 1000) < Z.to_nat N)%nat ->
     urlopen t (search_url q (Z.of_nat p) (Z.min N 1000))
     = Some {| entries :=
                 List.map f (seq (p * Z.to_nat (Z.min N 1000))
                               (Z.to_nat (Z.min N 1000))) |}) ->
  (forall i, (S i < Z.to_nat N)%nat ->
     date_reached (query q u (Some N)) (r i) = false) ->
  forall (fuel : nat) (w : world),
    (Z.to_nat N < fuel)%nat ->
    exists out w',
      drain urlopen fuel (query q u (Some N)) w
      = (out, Returned CountReached, w')
      /\ out = List.map r (seq 0 (Z.to_nat N))
      /\ Z.of_nat (List.length out) = N.
Proof.
  intros HN Hwf Hnet Hdate fuel w Hfuel.
  set (n := Z.to_nat N) in *. set (capn := Z.to_nat (Z.min N 1000)) in *.
  assert (1 <= capn)%nat as Hcap by (unfold capn; lia).
  destruct (drain_paged urlopen q u N
              (List.map f (seq 0 (n + n * capn + capn))) (List.map r (seq 0 n)) n)
    with (fuel := fuel) (w := w) as (w' & Hrun).
  - exact HN.
  - unfold n. lia.
  - now rewrite length_map, length_seq.
  - intros j Hj. exists (f j), (r j).
    rewrite !nth_error_map_seq by lia. repeat split. now apply Hwf.
  - intros t p Hp. fold capn. rewrite (Hnet t p Hp). do 2 f_equal.
    symmetry. apply page_slice_map_seq. nia.
  - intros j rj Hj Hr. rewrite nth_error_map_seq in Hr by lia.
    injection Hr as <-. split; [|now apply Hdate].
    unfold count_reached. cbn [max_results at_frame query].
    apply Z.leb_gt. unfold n in Hj. lia.
  - intros rj _. unfold count_reached. cbn [max_results at_frame query].
    replace (N <=? Z.of_nat n) with true; [reflexivity|].
    symmetry. apply Z.leb_le. unfold n. lia.
  - exact Hfuel.
  - exists (List.map r (seq 0 n)), w'. split; [|split].
    + rewrite Hrun. unfold count_reached. cbn [max_results at_frame query].
      replace (N <=? Z.of_nat n) with true; [reflexivity|].
      symmetry. apply Z.leb_le. unfold n. lia.
    + reflexivity.
    + rewrite length_map, length_seq. unfold n. lia.
Qed.


Lemma stop_by_count_witness :
  exists out w',
    drain (Fixture.paged "q" 3 Fixture.january 1) 5
      (query "q" (Some (Fixture.midnight 2024 1 9)) (Some 3)) fresh
    = (out, Returned CountReached, w')
    /\ out = List.map Fixture.forever_record (seq 0 3)
    /\ Z.of_nat (List.length out) = 3.
Proof.
  apply (stop_by_count (Fixture.paged "q" 3 Fixture.january 1) "q"
           (Some (Fixture.midnight 2024 1 9)) 3
           Fixture.forever Fixture.forever_record).
  - lia.
  - intros i Hi.
    assert (i = 0 \/ i = 1 \/ i = 2)%nat as [->|[->| ->]]
      by (simpl in Hi; lia); reflexivity.
  - intros t p Hp. assert (p = 0%nat) as -> by (simpl in Hp; lia).
    reflexivity.
  - intros i Hi.
    assert (i = 0 \/ i = 1)%nat as [->| ->] by (simpl in Hi; lia);
      reflexivity.
  - simpl. lia.
Defined.

(** C5 as stated fails.  Over an endless well-formed feed: with
    [max_results = 5] and an [until] that the third record is older than,
    three records are produced, not five; with [max_results = 0] and pages
    of zero entries, the iteration produces nothing and never ends. *)
Lemma count_is_not_always_reached :
  (forall i, exists p, paper_from_arxiv_entry (Fixture.forever i) = Ok p)
  /\ drain (Fixture.endless Fixture.forever 5) 10
       (query "q" (Some (Fixture.midnight 2024 1 9)) (Some 5)) fresh
     = (firstn 3 Fixture.january_records, Returned DateReached,
        log_request (search_url "q" 0 5) fresh)
  /\ (forall fuel,
        drain (Fixture.endless Fixture.forever 0) fuel
          (query "q" None (Some 0)) fresh
        = ([], OutOfFuel, log_requests (page_urls "q" 0 0 fuel) fresh)).
Proof.
  split; [|split].
  - intros i. unfold Fixture.forever.
    do 5 (destruct i as [|i]; [eexists; reflexivity|]).
    cbn [nth Fixture.january].
    destruct i as [|i];
      (destruct (paper_from_arxiv_entry _) as [p|x] eqn:E;
       [now exists p|exfalso; cbv in E; discriminate E]).
  - reflexivity.
  - intros fuel. unfold drain. destruct fuel as [|fuel]; [reflexivity|].
    cbn [drain_from]. unfold next. cbn [position query until max_results].
    pose proof (while_true_all_empty (Fixture.endless Fixture.forever 0)
                  (query "q" None (Some 0)) 0 eq_refl
                  (fun _ _ => eq_refl) (S fuel) 0%nat 0 fresh) as E.
    change (Z.of_nat 0) with 0 in E. now rewrite E.
Qed.



(** * Further properties *)

(** ** Escaping and URLs *)

Lemma all_chars_app (f : ascii -> bool) (a b : string) :
  all_chars f (a ++ b) = all_chars f a && all_chars f b.
Proof.
  induction a as [|c a IH]; simpl; [reflexivity|].
  now rewrite IH, andb_assoc.
Qed.

Lemma all_chars_mem (f : ascii -> bool) (s : string) :
  all_chars f s = true <-> (forall c, Str.mem c s = true -> f c = true).
Proof.
  induction s as [|d s IH]; simpl.
  - split; [discriminate|reflexivity].
  - rewrite andb_true_iff, IH. split.
    + intros [Hd Hs] c Hc. apply orb_true_iff in Hc as [Hc|Hc].
      * apply Ascii.eqb_eq in Hc. now subst.
      * now apply Hs.
    + intros H. split.
      * apply H. now rewrite Ascii.eqb_refl.
      * intros c Hc. apply H. now rewrite Hc, orb_true_r.
Qed.

Lemma escape_char_other (c : ascii) :
  reserved c = false -> escape_char c = String c EmptyString.
Proof.
  unfold reserved, escape_char. intros H.
  destruct (Ascii.eqb c dquote); [discriminate|].
  destruct (Ascii.eqb c " "); [discriminate|].
  destruct (Ascii.eqb c "("); [discriminate|].
  destruct (Ascii.eqb c ")"); [discriminate|reflexivity].
Qed.

(** What [html_escaping] returns is free of the four characters. *)
Lemma html_escaping_safe (s : string) : url_safe (html_escaping s) = true.
Proof.
  unfold url_safe. apply all_chars_mem. intros c.
  rewrite html_escaping_pointwise.
  induction s as [|d s IH]; simpl; [discriminate|].
  rewrite mem_app. intros H. apply orb_true_iff in H as [H|H].
  - now rewrite (escape_char_unreserved c d H).
  - now apply IH.
Qed.

(** Escaping works piece by piece: the escape of a concatenation is the
    concatenation of the escapes. *)
Theorem html_escaping_app (a b : string) :
  html_escaping (a ++ b) = html_escaping a ++ html_escaping b.
Proof. rewrite !html_escaping_pointwise. apply expand_app. Qed.

(** [html_escaping] leaves a string unchanged exactly when the string holds
    none of the four characters. *)
Theorem html_escaping_fixed_iff (s : string) :
  html_escaping s = s <-> url_safe s = true.
Proof.
  split.
  - intros E. rewrite <- E. apply html_escaping_safe.
  - unfold url_safe. rewrite html_escaping_pointwise.
    induction s as [|c s IH]; simpl; [reflexivity|].
    intros H. apply andb_true_iff in H as [Hc Hs].
    apply negb_true_iff in Hc.
    rewrite (escape_char_other c Hc), IH by assumption. reflexivity.
Qed.


Lemma length_append (a b : string) :
  String.length (a ++ b) = (String.length a + String.length b)%nat.
Proof. induction a as [|c a IH]; simpl; [reflexivity|now rewrite IH]. Qed.

Lemma append_cancel_l (a x y : string) : a ++ x = a ++ y -> x = y.
Proof.
  induction a as [|c a IH]; simpl; [trivial|].
  intros [= E]. now apply IH.
Qed.

Lemma append_cancel_r (t x y : string) : x ++ t = y ++ t -> x = y.
Proof.
  revert y. induction x as [|c x IH]; intros [|d y] E; simpl in E.
  - reflexivity.
  - apply (f_equal String.length) in E. simpl in E.
    rewrite length_append in E. lia.
  - apply (f_equal String.length) in E. simpl in E.
    rewrite length_append in E. lia.
  - injection E as -> E. f_equal. now apply IH.
Qed.

Lemma string_of_uint_safe (d : Decimal.uint) :
  url_safe (DecimalString.NilEmpty.string_of_uint d) = true.
Proof. induction d; simpl; try reflexivity; exact IHd. Qed.

(** [str(n)] is made of digits and a sign. *)
Lemma of_int_safe (n : Z) : url_safe (Str.of_int n) = true.
Proof.
  assert (forall d, url_safe (DecimalString.NilZero.string_of_uint d) = true)
    as Hu.
  { intros d. destruct d; try reflexivity;
      unfold DecimalString.NilZero.string_of_uint; apply string_of_uint_safe. }
  unfold Str.of_int, DecimalString.NilZero.string_of_int.
  destruct (Z.to_int n) as [d|d]; [apply Hu|].
  unfold url_safe. cbn [all_chars]. apply (Hu d).
Qed.

(** [str] gives different integers different texts. *)
Lemma of_int_inj (a b : Z) : Str.of_int a = Str.of_int b -> a = b.
Proof.
  assert (forall z, Z.to_int z <> Decimal.Pos Decimal.Nil
                    /\ Z.to_int z <> Decimal.Neg Decimal.Nil) as Hnn.
  { intros [|p|p]; simpl; split; try discriminate;
      intros [= E]; now apply DecimalPos.Unsigned.to_uint_nonnil in E. }
  unfold Str.of_int. intros E.
  apply (f_equal DecimalString.NilZero.int_of_string) in E.
  rewrite !DecimalString.NilZero.isi in E by apply Hnn.
  injection E as E. apply (f_equal Z.of_int) in E.
  now rewrite !DecimalZ.of_to in E.
Qed.

(** The text of a URL, piece by piece. *)
Lemma search_url_text (q : string) (page max_results : Z) :
  search_url q page max_results
  = "http://export.arxiv.org/api/query?search_query=" ++ html_escaping q
    ++ "&sortBy=submittedDate&sortOrder=descending&start="
    ++ Str.of_int (page * max_results)
    ++ "&max_results=" ++ Str.of_int max_results.
Proof.
  unfold search_url, Str.join. cbn [List.map String.concat fst snd].
  cbn [append]. rewrite ?append_assoc. reflexivity.
Qed.

(** Whatever the query string, a URL built by [search_url] holds no space,
    double quote or parenthesis. *)
Theorem search_url_safe (q : string) (page max_results : Z) :
  url_safe (search_url q page max_results) = true.
Proof.
  rewrite search_url_text. unfold url_safe.
  rewrite !all_chars_app.
  fold (url_safe (html_escaping q)).
  fold (url_safe (Str.of_int (page * max_results))).
  fold (url_safe (Str.of_int max_results)).
  now rewrite html_escaping_safe, !of_int_safe.
Qed.

(** At a page size other than zero, different pages of a query have
    different URLs; at page size zero every page has the URL of page 0. *)
Theorem search_url_pages (q : string) (max_results : Z) :
  (max_results <> 0 ->
   forall p1 p2,
     search_url q p1 max_results = search_url q p2 max_results -> p1 = p2)
  /\ (forall p, search_url q p 0 = search_url q 0 0).
Proof.
  split.
  - intros Hm p1 p2 E. rewrite !search_url_text in E.
    do 3 apply append_cancel_l in E.
    apply append_cancel_r in E. apply of_int_inj in E. nia.
  - intros p. rewrite !search_url_text. now rewrite Z.mul_0_r.
Qed.

Lemma search_url_pages_witness :
  1000 <> 0
  /\ search_url "cat:cs.LG" 1 1000 <> search_url "cat:cs.LG" 2 1000.
Proof.
  split; [lia|]. intros E.
  apply (proj1 (search_url_pages "cat:cs.LG" 1000) ltac:(lia) 1 2) in E.
  discriminate E.
Defined.

(** ** The normaliser's errors and invariants *)

(** Reading the authors' names gives the names or stops on a missing one. *)
Lemma comprehension_missing_name (au : list author) :
  Exists (fun a => author_name a = None) au ->
  comprehension (fun a => getitem (author_name a)) au = Raise KeyError.
Proof.
  induction au as [|a au IH]; intros H; inversion H as [? ? Ha|? ? Hau]; subst.
  - simpl. now rewrite Ha.
  - simpl. destruct (author_name a); [|reflexivity].
    cbn [getitem bind]. now rewrite IH.
Qed.

Lemma comprehension_key_error (au : list author) (x : exn) :
  comprehension (fun a => getitem (author_name a)) au = Raise x -> x = KeyError.
Proof.
  induction au as [|a au IH]; simpl; [discriminate|].
  destruct (author_name a); cbn [getitem bind]; [|now intros [= <-]].
  destruct (comprehension _ au) as [names|y]; cbn [bind]; [discriminate|].
  intros [= <-]. now apply IH.
Qed.

(** An entry that lacks [id], [title], [authors], [summary] or
    [published_parsed], or one of whose authors lacks [name], makes the
    normaliser raise [KeyError]; one that lacks [updated_parsed] makes it
    raise, and never gives a record. *)
Theorem normaliser_missing_key (e : entry) :
  (entry_id e = None \/ entry_title e = None \/ entry_authors e = None
   \/ (exists au, entry_authors e = Some au
                  /\ Exists (fun a => author_name a = None) au)
   \/ entry_summary e = None \/ entry_published_parsed e = None ->
   paper_from_arxiv_entry e = Raise KeyError)
  /\ (entry_updated_parsed e = None ->
      exists x, paper_from_arxiv_entry e = Raise x).
Proof.
  unfold paper_from_arxiv_entry. split.
  - intros H.
    destruct (entry_id e) as [i|]; [|reflexivity].
    destruct (entry_title e) as [t|]; [|reflexivity].
    destruct (entry_authors e) as [au|]; [|reflexivity].
    cbn [getitem bind].
    destruct (comprehension _ au) as [names|x] eqn:Ec;
      [|now rewrite (comprehension_key_error au x Ec)].
    destruct (entry_summary e) as [s|]; [|reflexivity].
    destruct (entry_published_parsed e) as [pp|]; [|reflexivity].
    exfalso.
    destruct H as [H|[H|[H|[(au' & [= <-] & H)|[H|H]]]]]; try discriminate.
    rewrite (comprehension_missing_name au H) in Ec. discriminate.
  - intros H. rewrite H.
    destruct (entry_id e) as [i|]; [|now eexists].
    destruct (entry_title e) as [t|]; [|now eexists].
    destruct (entry_authors e) as [au|]; [|now eexists].
    cbn [getitem bind].
    destruct (comprehension _ au) as [names|x]; [|now eexists].
    destruct (entry_summary e) as [s|]; [|now eexists].
    destruct (entry_published_parsed e) as [pp|]; [|now eexists].
    cbn [getitem bind].
    destruct (mk_datetime (firstn 6 pp)) as [dp|x]; now eexists.
Qed.

Lemma normaliser_missing_key_witness :
  paper_from_arxiv_entry Fixture.untitled = Raise KeyError.
Proof.
  apply (proj1 (normaliser_missing_key Fixture.untitled)).
  right. left. reflexivity.
Defined.

Lemma mk_datetime_valid (args : list Z) (d : datetime) :
  mk_datetime args = Ok d ->
  (3 <= List.length args)%nat
  /\ fields_in_range (year d) (month d) (day d) (hour d) (minute d)
       (second d) (microsecond d) = true
  /\ ((List.length args <= 6)%nat -> microsecond d = 0).
Proof.
  unfold mk_datetime.
  destruct args as [|y [|m [|dd rest]]]; try discriminate.
  destruct (7 <? _); [discriminate|].
  destruct (fields_in_range _ _ _ _ _ _ _) eqn:E; [|discriminate].
  intros [= <-]. cbn [year month day hour minute second microsecond].
  split; [simpl; lia|]. split; [exact E|].
  intros Hlen. simpl in Hlen.
  destruct rest as [|? [|? [|? [|? ?]]]]; simpl in *; try reflexivity; lia.
Qed.

(** Every record the normaliser returns carries two valid calendar
    timestamps (month, day of that month and year, hour, minute and second
    in range), each with zero microseconds, and no embedding. *)
Theorem normaliser_dates_valid (e : entry) (p : Paper) :
  paper_from_arxiv_entry e = Ok p ->
  let valid (d : datetime) :=
    fields_in_range (year d) (month d) (day d) (hour d) (minute d)
      (second d) 0 = true
    /\ microsecond d = 0 in
  valid (date_published p) /\ valid (date_updated p) /\ embedding p = None.
Proof.
  unfold paper_from_arxiv_entry.
  destruct (entry_id e) as [i|]; [|discriminate].
  destruct (entry_title e) as [t|]; [|discriminate].
  destruct (entry_authors e) as [au|]; [|discriminate].
  cbn [getitem bind].
  destruct (comprehension _ au) as [names|]; [|discriminate].
  destruct (entry_summary e) as [s|]; [|discriminate].
  destruct (entry_published_parsed e) as [pp|]; [|discriminate].
  cbn [getitem bind].
  destruct (mk_datetime (firstn 6 pp)) as [dp|] eqn:Ep; [|discriminate].
  destruct (entry_updated_parsed e) as [up|]; [|discriminate].
  cbn [getitem bind].
  destruct (mk_datetime (firstn 6 up)) as [du|] eqn:Eu; [|discriminate].
  cbn [bind]. intros [= <-].
  cbn [date_published date_updated embedding].
  destruct (mk_datetime_valid _ _ Ep) as (_ & Hp & Hp0).
  destruct (mk_datetime_valid _ _ Eu) as (_ & Hu & Hu0).
  specialize (Hp0 (firstn_le_length 6 pp)).
  specialize (Hu0 (firstn_le_length 6 up)).
  rewrite Hp0 in Hp. rewrite Hu0 in Hu. repeat split; assumption.
Qed.

Lemma normaliser_dates_valid_witness :
  (fields_in_range 2024 1 10 12 0 0 0 = true /\ 0 = 0)
  /\ (fields_in_range 2024 1 10 12 0 0 0 = true /\ 0 = 0)
  /\ @None (list Q) = None.
Proof.
  exact (normaliser_dates_valid (Fixture.entry_on 1 2024 1 10)
           (Fixture.record_on 1 2024 1 10) eq_refl).
Defined.

(** With the keys before it present, a [published_parsed] of fewer than
    three fields makes the normaliser raise [TypeError], and one whose first
    six fields are not a calendar date and time makes it raise
    [ValueError]. *)
Theorem normaliser_bad_date (e : entry) (i t s : string) (au : list author)
    (names : list string) (pp : list Z) :
  entry_id e = Some i -> entry_title e = Some t ->
  entry_authors e = Some au ->
  comprehension (fun a => getitem (author_name a)) au = Ok names ->
  entry_summary e = Some s ->
  entry_published_parsed e = Some pp ->
  ((List.length pp < 3)%nat -> paper_from_arxiv_entry e = Raise TypeError)
  /\ (forall y m d rest,
        pp = y :: m :: d :: rest ->
        fields_in_range y m d (nth 0 rest 0) (nth 1 rest 0) (nth 2 rest 0) 0
        = false ->
        paper_from_arxiv_entry e = Raise ValueError).
Proof.
  intros Hi Ht Ha Hn Hs Hp. unfold paper_from_arxiv_entry.
  rewrite Hi, Ht, Ha. cbn [getitem bind]. rewrite Hn, Hs, Hp.
  cbn [getitem bind]. split.
  - intros Hlen.
    destruct pp as [|y [|m [|d rest]]]; simpl in Hlen; try lia; reflexivity.
  - intros y m d rest -> Hr.
    assert (mk_datetime (firstn 6 (y :: m :: d :: rest)) = Raise ValueError)
      as ->; [|reflexivity].
    destruct rest as [|h [|mi [|sec more]]]; cbn [firstn] in *;
      unfold mk_datetime; cbn [List.length nth] in *;
      (destruct (7 <? _) eqn:E7; [cbn in E7; discriminate|]);
      now rewrite Hr.
Qed.

Lemma normaliser_bad_date_witness :
  paper_from_arxiv_entry Fixture.leapless = Raise ValueError
  /\ paper_from_arxiv_entry Fixture.short_date = Raise TypeError.
Proof.
  split.
  - apply (proj2 (normaliser_bad_date Fixture.leapless "i" "t" "s" [] []
                    [2023; 2; 29; 0; 0; 0; 2; 60; 0]
                    eq_refl eq_refl eq_refl eq_refl eq_refl eq_refl)
             2023 2 29 [0; 0; 0; 2; 60; 0] eq_refl).
    reflexivity.
  - apply (proj1 (normaliser_bad_date Fixture.short_date "i" "t" "s" [] []
                    [2023; 2]
                    eq_refl eq_refl eq_refl eq_refl eq_refl eq_refl)).
    simpl. lia.
Defined.

(** ** Normalising twice *)

Lemma join_cons (sep w : string) (rest : list string) :
  rest <> [] -> Str.join sep (w :: rest) = w ++ sep ++ Str.join sep rest.
Proof. destruct rest; [congruence|reflexivity]. Qed.

Lemma split_from_nonempty (s acc : string) :
  acc <> EmptyString -> Str.split_from acc s <> [].
Proof.
  revert acc. induction s as [|c s IH]; intros acc Hacc; simpl.
  - destruct acc; [congruence|discriminate].
  - destruct (Str.is_space c).
    + destruct acc; [congruence|discriminate].
    + apply IH. destruct acc; discriminate.
Qed.

(** On whitespace-normal text, splitting and joining again gives the text
    back; [acc] is the word being read. *)
Lemma join_split_from_collapsed (s acc : string) :
  Str.has_space acc = false ->
  Str.collapsed_from
    (match acc with EmptyString => true | String _ _ => false end) s = true ->
  Str.join " " (Str.split_from acc s) = acc ++ s.
Proof.
  revert acc. induction s as [|c s IH]; intros acc Hacc Hc.
  - destruct acc as [|a acc]; [discriminate|].
    simpl. now rewrite append_empty_r.
  - cbn [Str.collapsed_from Str.split_from] in *.
    destruct (Str.is_space c) eqn:Ec.
    + apply andb_true_iff in Hc as [Hc Hs].
      apply andb_true_iff in Hc as [Hsp Hne].
      apply Ascii.eqb_eq in Hsp. subst c.
      destruct acc as [|a acc]; [discriminate|]. cbn [Str.flush app].
      assert (Str.split_from EmptyString s <> []) as Hrest.
      { destruct s as [|d s]; [discriminate|].
        cbn [Str.collapsed_from] in Hs. cbn [Str.split_from].
        destruct (Str.is_space d).
        - rewrite andb_false_r in Hs. discriminate.
        - apply split_from_nonempty. discriminate. }
      rewrite join_cons by exact Hrest.
      rewrite (IH EmptyString eq_refl Hs). reflexivity.
    + rewrite IH.
      * now rewrite append_assoc.
      * rewrite has_space_app. simpl. now rewrite Hacc, Ec.
      * destruct acc; exact Hc.
Qed.

Lemma join_split_collapsed (t : string) :
  Str.collapsed t = true -> Str.join " " (Str.split t) = t.
Proof.
  destruct t as [|c t]; [reflexivity|].
  intros H. exact (join_split_from_collapsed (String c t) EmptyString eq_refl H).
Qed.

Lemma map_newlines_collapsed (s : string) (prev : bool) :
  Str.collapsed_from prev s = true ->
  Str.map (fun c => if Ascii.eqb c newline then " "%char else c) s = s.
Proof.
  revert prev. induction s as [|c s IH]; intros prev H; [reflexivity|].
  simpl in H |- *. destruct (Ascii.eqb c newline) eqn:En.
  - apply Ascii.eqb_eq in En. subst c.
    change (Str.is_space newline) with true in H. cbn iota in H.
    change (Ascii.eqb newline " ") with false in H. discriminate.
  - f_equal. destruct (Str.is_space c).
    + apply andb_true_iff in H as [_ H]. now apply IH with true.
    + now apply IH with false.
Qed.

Lemma map_newlines_twice (s : string) :
  let f := fun c => if Ascii.eqb c newline then " "%char else c in
  Str.map f (Str.map f s) = Str.map f s.
Proof.
  induction s as [|c s IH]; [reflexivity|]. simpl in *. rewrite IH.
  f_equal. now destruct (Ascii.eqb c newline) eqn:E; [|rewrite E].
Qed.

(** A title that is already whitespace-normal comes out of the normaliser
    as it went in; so normalising a record's own title and abstract once
    more changes neither. *)
Theorem normaliser_idempotent (e : entry) (p : Paper) :
  paper_from_arxiv_entry e = Ok p ->
  (forall t, entry_title e = Some t -> Str.collapsed t = true -> title p = t)
  /\ (forall e' p',
        paper_from_arxiv_entry e' = Ok p' ->
        (entry_title e' = Some (title p) -> title p' = title p)
        /\ (entry_summary e' = Some (abstract p) -> abstract p' = abstract p)).
Proof.
  intros H.
  assert (forall e0 p0 t, paper_from_arxiv_entry e0 = Ok p0 ->
            entry_title e0 = Some t -> Str.collapsed t = true -> title p0 = t)
    as Hfix.
  { intros e0 p0 t H0 Ht Hc.
    destruct (paper_text e0 p0 H0) as (t0 & s0 & Ht0 & _ & -> & _).
    rewrite Ht in Ht0. injection Ht0 as <-.
    rewrite replace_newlines.
    destruct t as [|c t]; [reflexivity|].
    rewrite (map_newlines_collapsed _ true Hc).
    now apply join_split_collapsed. }
  split; [intros t; now apply Hfix|].
  intros e' p' H'.
  destruct (paper_text e p H) as (t & s & _ & _ & Et & Ea).
  split.
  - intros Ht'. apply (Hfix e' p' (title p) H' Ht').
    rewrite Et. apply collapsed_join, split_from_words. reflexivity.
  - intros Hs'.
    destruct (paper_text e' p' H') as (t' & s' & _ & Hs0 & _ & ->).
    rewrite Hs' in Hs0. injection Hs0 as <-.
    rewrite Ea, !replace_newlines. apply map_newlines_twice.
Qed.

Lemma normaliser_idempotent_witness :
  title (Fixture.record_on 1 2024 1 10) = "Paper 1"
  /\ abstract (Fixture.record_on 1 2024 1 10) = "Summary.".
Proof.
  destruct (normaliser_idempotent (Fixture.entry_on 1 2024 1 10)
              (Fixture.record_on 1 2024 1 10) eq_refl) as [Hfix Hagain].
  split.
  - apply Hfix; reflexivity.
  - exact (proj2 (Hagain (Fixture.entry_on 1 2024 1 10)
                    (Fixture.record_on 1 2024 1 10) eq_refl) eq_refl).
Defined.

(** ** [get_feed] over any network *)

(** Among [n] attempts from request number [base], numbered from [a] for
    their delays: all fail and every delay is one [sleep] accepts; or there
    is a first attempt that succeeds; or a first delay [sleep] refuses. *)
Lemma first_event (urlopen : network) (url : string) (scaling : Q)
    (base a n : nat) :
  ((forall i, (i < n)%nat -> urlopen (base + i)%nat url = None)
   /\ (forall i, (i < n)%nat -> sleepable (backoff_delay scaling (a + i)) = true))
  \/ (exists k data,
        (k < n)%nat
        /\ (forall i, (i < k)%nat -> urlopen (base + i)%nat url = None)
        /\ (forall i, (i < k)%nat ->
              sleepable (backoff_delay scaling (a + i)) = true)
        /\ urlopen (base + k)%nat url = Some data)
  \/ (exists j,
        (j < n)%nat
        /\ (forall i, (i <= j)%nat -> urlopen (base + i)%nat url = None)
        /\ (forall i, (i < j)%nat ->
              sleepable (backoff_delay scaling (a + i)) = true)
        /\ sleepable (backoff_delay scaling (a + j)) = false).
Proof.
  induction n as [|n IH].
  - left. split; intros i Hi; lia.
  - destruct IH as [[Hall Hs]|[(k & data & Hk & Hfail & Hs & Hok)
                              |(j & Hj & Hfail & Hs & Hbad)]].
    + destruct (urlopen (base + n)%nat url) as [data|] eqn:E.
      * right. left. exists n, data. repeat split; try assumption. lia.
      * destruct (sleepable (backoff_delay scaling (a + n))) eqn:Es.
        -- left. split; intros i Hi;
             (destruct (Nat.eq_dec i n) as [->|Hne];
              [assumption|(apply Hall || apply Hs); lia]).
        -- right. right. exists n. repeat split; try assumption; [lia|].
           intros i Hi.
           destruct (Nat.eq_dec i n) as [->|Hne]; [exact E|apply Hall; lia].
    + right. left. exists k, data. repeat split; try assumption. lia.
    + right. right. exists j. repeat split; try assumption. lia.
Qed.

(** Whatever the network does and whatever the scaling, [get_feed] ends in
    one of three ways: after [k < max_tries] failed attempts it returns what
    attempt [k + 1] got; after [max_tries] failed attempts it raises
    [ValueError]; or, a delay being one [sleep] refuses, it raises what
    [sleep] raises right after the failed attempt before that delay.  It
    makes at most [max_tries] requests, all for [url], returns only what the
    network answered, and with [max_tries <= 0] raises without a request. *)
Theorem get_feed_outcomes (urlopen : network) (url : string) (scaling : Q)
    (max_tries : Z) (w : world) :
  (exists k : nat,
     Z.of_nat k <= Z.max 0 max_tries
     /\ (forall i, (i < k)%nat ->
           urlopen (List.length (requests w) + i)%nat url = None)
     /\ ((exists data,
            Z.of_nat k < max_tries
            /\ urlopen (List.length (requests w) + k)%nat url = Some data
            /\ get_feed urlopen url scaling max_tries w
               = (Ok data, log_request url (after_failures url scaling w 0 k)))
         \/ (k = Z.to_nat max_tries
             /\ get_feed urlopen url scaling max_tries w
                = (Raise ValueError, after_failures url scaling w 0 k))
         \/ (exists j,
               k = S j
               /\ sleepable (backoff_delay scaling j) = false
               /\ get_feed urlopen url scaling max_tries w
                  = (Raise (sleep_error (backoff_delay scaling j)),
                     log_request url (after_failures url scaling w 0 j)))))
  /\ (max_tries <= 0 ->
      get_feed urlopen url scaling max_tries w = (Raise ValueError, w)).
Proof.
  split.
  - destruct (first_event urlopen url scaling (List.length (requests w)) 0
                (Z.to_nat max_tries))
      as [[Hall Hs]|[(k & data & Hk & Hfail & Hs & Hok)
                    |(j & Hj & Hfail & Hs & Hbad)]].
    + exists (Z.to_nat max_tries). split; [lia|]. split; [exact Hall|].
      right. left. split; [reflexivity|].
      unfold get_feed. now apply get_feed_loop_exhausted.
    + exists k. split; [lia|]. split; [exact Hfail|].
      left. exists data. split; [lia|]. split; [exact Hok|].
      unfold get_feed. now apply get_feed_loop_recovers.
    + exists (S j). split; [lia|]. split; [intros i Hi; apply Hfail; lia|].
      right. right. exists j. split; [reflexivity|]. split; [exact Hbad|].
      unfold get_feed.
      now rewrite (get_feed_loop_sleep_raises urlopen url scaling j _ 0 w Hj
                     Hfail Hs Hbad).
  - intros Hm. unfold get_feed.
    replace (Z.to_nat max_tries) with 0%nat by lia. reflexivity.
Qed.

Lemma get_feed_outcomes_witness :
  get_feed Fixture.down "u" (3 # 2) 0 fresh = (Raise ValueError, fresh).
Proof.
  apply (proj2 (get_feed_outcomes Fixture.down "u" (3 # 2) 0 fresh)). lia.
Defined.

Lemma backoff_sum_succ (s : Q) (k : nat) :
  (backoff_sum s (S k) == backoff_sum s k + backoff_delay s k)%Q.
Proof.
  unfold backoff_sum, backoff_delays. rewrite seq_S, map_app.
  rewrite fold_right_Qplus_app. simpl. now rewrite Qplus_0_r.
Qed.

(** The backoff schedule: the first delay is 3; with a scaling of at least
    1 no delay is shorter than the one before; and the delays of [k] failed
    attempts add up to [3 (s^k - 1) / (s - 1)]. *)
Theorem backoff_schedule (s : Q) :
  (backoff_delay s 0 == 3)%Q
  /\ ((1 <= s)%Q ->
      forall i j, (i <= j)%nat -> (backoff_delay s i <= backoff_delay s j)%Q)
  /\ (forall k,
        (backoff_sum s k * (s - 1) == 3 * (s ^ Z.of_nat k - 1))%Q).
Proof.
  split; [|split].
  - unfold backoff_delay. simpl. ring.
  - intros Hs i j Hij. unfold backoff_delay.
    apply Qmult_le_l; [reflexivity|].
    apply Qpower_le_compat_l; [lia|exact Hs].
  - induction k as [|k IH].
    + unfold backoff_sum, backoff_delays. simpl. ring.
    + rewrite backoff_sum_succ. unfold backoff_delay.
      rewrite Nat2Z.inj_succ, <- Z.add_1_r.
      rewrite Qpower_plus' by lia.
      rewrite Qmult_plus_distr_l, IH.
      change (s ^ 1)%Q with s. ring.
Qed.

Lemma backoff_schedule_witness :
  (1 <= 3 # 2)%Q
  /\ (backoff_delay (3 # 2) 1 <= backoff_delay (3 # 2) 4)%Q.
Proof.
  split; [discriminate|].
  apply (proj1 (proj2 (backoff_schedule (3 # 2)))); [discriminate|lia].
Defined.

(** ** [query] over any network *)

Section AnyNetwork.

Variable urlopen : network.

(** [get_feed] asks for its URL and nothing else. *)
Lemma get_feed_requests (url : string) (scaling : Q) (max_tries : Z)
    (w w' : world) (r : result feed) :
  get_feed urlopen url scaling max_tries w = (r, w') ->
  exists k, requests w' = (requests w ++ repeat url k)%list.
Proof.
  unfold get_feed. generalize (seq 0 (Z.to_nat max_tries)) as tries.
  intros tries. revert w.
  induction tries as [|a tries IH]; intros w H; cbn [get_feed_loop] in H.
  - injection H as _ <-. exists 0%nat. simpl. now rewrite app_nil_r.
  - destruct (urlopen (List.length (requests w)) url) as [data|].
    + injection H as _ <-. now exists 1%nat.
    + unfold sleep in H. destruct (sleepable _).
      * apply IH in H. destruct H as (k & Hk). exists (S k).
        rewrite Hk. cbn [log_sleep log_request requests].
        now rewrite <- app_assoc.
      * injection H as _ <-. now exists 1%nat.
Qed.

(** How a run of the loop from its head can end, and what it asked for on
    the way: pages of this query from [page] on, at the capped page size. *)
Lemma while_true_shape (g : generator) (fuel : nat) :
  forall (page count : Z) (w w' : world) (s : signal) (g' : generator),
    while_true urlopen g fuel page count w = (s, g', w') ->
    match s with
    | Yield p =>
        exists page' rest,
          g' = at_frame g (Suspended page' count p rest) /\ page <= page'
    | Raised _ => g' = at_frame g Finished
    | OutOfFuel => g' = g
    | Returned _ | Exhausted => False
    end
    /\ exists urls,
         requests w' = (requests w ++ urls)%list
         /\ Forall (fun url =>
                      exists N p, max_results g = Some N /\ page <= p
                                  /\ url = search_url (query_string g) p
                                             (Z.min N 1000)) urls.
Proof.
  induction fuel as [|fuel IH]; intros page count w w' s g' H.
  - cbn [while_true] in H. injection H as <- <- <-.
    split; [reflexivity|]. exists []. now rewrite app_nil_r.
  - cbn [while_true] in H.
    destruct (max_results g) as [N|] eqn:Hm; cbn [py_min] in H.
    2:{ injection H as <- <- <-. split; [reflexivity|].
        exists []. now rewrite app_nil_r. }
    destruct (get_feed urlopen _ _ _ w) as [[data|x] w1] eqn:Hget.
    2:{ injection H as <- <- <-. split; [reflexivity|].
        destruct (get_feed_requests _ _ _ _ _ _ Hget) as (k & Hk).
        exists (repeat (search_url (query_string g) page (Z.min N 1000)) k).
        split; [exact Hk|]. apply Forall_forall. intros url Hin.
        apply repeat_spec in Hin. subst url. exists N, page.
        repeat split. lia. }
    destruct (get_feed_requests _ _ _ _ _ _ Hget) as (k & Hk).
    assert (Forall (fun url =>
                      exists N0 p, Some N = Some N0 /\ page <= p
                                   /\ url = search_url (query_string g) p
                                              (Z.min N0 1000))
              (repeat (search_url (query_string g) page (Z.min N 1000)) k))
      as Hurls.
    { apply Forall_forall. intros url Hin. apply repeat_spec in Hin.
      subst url. exists N, page. repeat split. lia. }
    destruct (entries data) as [|e rest]; cbn [for_entries] in H.
    + apply IH in H. destruct H as [Hshape (urls & Hreq & Hall)]. split.
      * destruct s; try exact Hshape.
        destruct Hshape as (page' & rest' & -> & Hle).
        exists page', rest'. split; [reflexivity|lia].
      * exists (repeat (search_url (query_string g) page (Z.min N 1000)) k
                ++ urls)%list.
        split; [now rewrite Hreq, Hk, app_assoc|].
        apply Forall_app. split; [exact Hurls|].
        eapply Forall_impl; [|exact Hall].
        intros url (N0 & p & HN0 & Hp & ->).
        exists N0, p. repeat split; [exact HN0|lia].
    + destruct (paper_from_arxiv_entry e) as [paper|x];
        injection H as <- <- <-.
      * split; [exists page, rest; split; [reflexivity|lia]|].
        eexists. split; [exact Hk|exact Hurls].
      * split; [reflexivity|]. eexists. split; [exact Hk|exact Hurls].
Qed.

(** A [next] that yields leaves the generator suspended on the record it
    yielded, one count further; it was either the first [next] or no stop
    condition held for the record before. *)
Lemma next_yield (g : generator) (fuel : nat) (w w' : world) (p : Paper)
    (g' : generator) :
  next urlopen g fuel w = (Yield p, g', w') ->
  exists page' rest',
    g' = at_frame g
           (Suspended page'
              (match position g with Suspended _ c _ _ => c + 1 | _ => 0 end)
              p rest')
    /\ match position g with
       | Created => 0 <= page'
       | Suspended pg c paper _ =>
           count_reached g (c + 1) = false /\ date_reached g paper = false
           /\ pg <= page'
       | Finished => False
       end.
Proof.
  unfold next. destruct (position g) as [|pg c paper rest|] eqn:Hpos.
  - intros H.
    assert (while_true urlopen g fuel 0 0 w = (Yield p, g', w')) as Hw.
    { destruct (until g), (max_results g); try exact H; discriminate H. }
    apply while_true_shape in Hw. destruct Hw as [(page' & rest' & -> & Hle) _].
    now exists page', rest'.
  - destruct (count_reached g (c + 1)); [discriminate|].
    destruct (date_reached g paper); [discriminate|].
    destruct rest as [|e rest]; cbn [for_entries].
    + intros H. apply while_true_shape in H.
      destruct H as [(page' & rest' & -> & Hle) _].
      exists page', rest'. repeat split. lia.
    + destruct (paper_from_arxiv_entry e) as [paper'|x]; [|discriminate].
      intros [= <- <- <-]. exists pg, rest. repeat split. lia.
  - discriminate.
Qed.

(** What any [next] asks the network for. *)
Lemma next_requests (g : generator) (fuel : nat) (w w' : world) (s : signal)
    (g' : generator) :
  frame_ok (position g) ->
  next urlopen g fuel w = (s, g', w') ->
  exists urls,
    requests w' = (requests w ++ urls)%list
    /\ Forall (fun url =>
                 exists N, max_results g = Some N
                           /\ is_page_url (query_string g) (Z.min N 1000) url)
         urls.
Proof.
  assert (forall page count,
            0 <= page ->
            while_true urlopen g fuel page count w = (s, g', w') ->
            exists urls,
              requests w' = (requests w ++ urls)%list
              /\ Forall (fun url =>
                           exists N, max_results g = Some N
                                     /\ is_page_url (query_string g)
                                          (Z.min N 1000) url) urls) as Hloop.
  { intros page count Hpage H. apply while_true_shape in H.
    destruct H as [_ (urls & Hreq & Hall)]. exists urls. split; [exact Hreq|].
    eapply Forall_impl; [|exact Hall].
    intros url (N & pg & HN & Hpg & ->). exists N. split; [exact HN|].
    exists pg. split; [lia|reflexivity]. }
  assert (forall x, (s, g', w') = (x, w) -> exists urls : list string,
            requests w' = (requests w ++ urls)%list
            /\ Forall (fun url =>
                         exists N, max_results g = Some N
                                   /\ is_page_url (query_string g)
                                        (Z.min N 1000) url) urls) as Hstay.
  { intros x [= _ ->]. exists []. now rewrite app_nil_r. }
  unfold next. intros Hok.
  destruct (position g) as [|pg c paper rest|].
  - intros H. destruct (until g), (max_results g);
      try (now apply (Hloop 0 0)); symmetry in H; now apply Hstay in H.
  - destruct Hok as [Hpg Hc].
    destruct (count_reached g (c + 1));
      [intros H; symmetry in H; now apply Hstay in H|].
    destruct (date_reached g paper);
      [intros H; symmetry in H; now apply Hstay in H|].
    destruct rest as [|e rest]; cbn [for_entries].
    + apply Hloop. lia.
    + destruct (paper_from_arxiv_entry e);
        intros H; symmetry in H; now apply Hstay in H.
  - intros H; symmetry in H; now apply Hstay in H.
Qed.

End AnyNetwork.

Section AnyNetworkRuns.

Variable urlopen : network.

Lemma drain_from_count (pulls : nat) :
  forall (fuel : nat) (g : generator) (w w' : world) (out : list Paper)
         (s : signal) (N : Z),
    max_results g = Some N ->
    drain_from urlopen pulls fuel g w = (out, s, w') ->
    Z.of_nat (List.length out)
    <= match position g with
       | Created => Z.max 1 N
       | Suspended _ c _ _ => Z.max 0 (N - (c + 1))
       | Finished => 0
       end.
Proof.
  induction pulls as [|pulls IH]; intros fuel g w w' out s N HN H;
    cbn [drain_from] in H.
  - injection H as <- _ _. simpl. destruct (position g); lia.
  - destruct (next urlopen g fuel w) as [[s1 g1] w1] eqn:En.
    assert (Z.of_nat (@List.length Paper []) <=
            match position g with
            | Created => Z.max 1 N
            | Suspended _ c _ _ => Z.max 0 (N - (c + 1))
            | Finished => 0
            end) as Hnil by (simpl; destruct (position g); lia).
    destruct s1 as [p| | | |]; try (injection H as <- _ _; exact Hnil).
    destruct (drain_from urlopen pulls fuel g1 w1) as [[ps s2] w2] eqn:Ed.
    injection H as <- _ _.
    apply next_yield in En. destruct En as (page' & rest' & -> & Hpos).
    eapply IH in Ed; [|exact HN]. cbn [position at_frame] in Ed.
    cbn [List.length]. rewrite Nat2Z.inj_succ.
    destruct (position g) as [|pg c paper rest|]; [lia| |contradiction].
    destruct Hpos as (Hc & _ & _). unfold count_reached in Hc.
    rewrite HN in Hc. apply Z.leb_gt in Hc. lia.
Qed.

Lemma drain_from_dates (pulls : nat) :
  forall (fuel : nat) (g : generator) (w w' : world) (out : list Paper)
         (s : signal) (t : datetime),
    until g = Some t ->
    drain_from urlopen pulls fuel g w = (out, s, w') ->
    Forall (fun p => older_than t p = false) (removelast out)
    /\ (forall pg c paper rest,
          position g = Suspended pg c paper rest ->
          older_than t paper = true -> out = []).
Proof.
  induction pulls as [|pulls IH]; intros fuel g w w' out s t Ht H;
    cbn [drain_from] in H.
  - injection H as <- _ _. split; [constructor|reflexivity].
  - destruct (next urlopen g fuel w) as [[s1 g1] w1] eqn:En.
    destruct s1 as [p| | | |];
      try (injection H as <- _ _; split; [constructor|reflexivity]).
    destruct (drain_from urlopen pulls fuel g1 w1) as [[ps s2] w2] eqn:Ed.
    injection H as <- _ _.
    apply next_yield in En. destruct En as (page' & rest' & -> & Hpos).
    eapply IH in Ed; [|exact Ht]. destruct Ed as [Hall Hlast].
    split.
    + destruct ps as [|a ps]; [constructor|].
      change (removelast (p :: a :: ps)) with (p :: removelast (a :: ps)).
      constructor; [|exact Hall].
      destruct (older_than t p) eqn:Ep; [|reflexivity].
      discriminate (Hlast _ _ _ _ eq_refl Ep).
    + intros pg c paper rest Hg Hold. rewrite Hg in Hpos.
      destruct Hpos as (_ & Hd & _). unfold date_reached in Hd.
      rewrite Ht in Hd. unfold older_than in Hold. congruence.
Qed.

Lemma drain_from_requests (pulls : nat) :
  forall (fuel : nat) (g : generator) (w w' : world) (out : list Paper)
         (s : signal) (N : Z),
    max_results g = Some N ->
    frame_ok (position g) ->
    drain_from urlopen pulls fuel g w = (out, s, w') ->
    exists urls,
      requests w' = (requests w ++ urls)%list
      /\ Forall (is_page_url (query_string g) (Z.min N 1000)) urls.
Proof.
  induction pulls as [|pulls IH]; intros fuel g w w' out s N HN Hok H;
    cbn [drain_from] in H.
  - injection H as _ _ <-. exists []. now rewrite app_nil_r.
  - destruct (next urlopen g fuel w) as [[s1 g1] w1] eqn:En.
    destruct (next_requests urlopen g fuel w w1 s1 g1 Hok En)
      as (urls & Hreq & Hall).
    assert (Forall (is_page_url (query_string g) (Z.min N 1000)) urls) as Hall'.
    { eapply Forall_impl; [|exact Hall].
      intros url (N0 & HN0 & Hurl). rewrite HN in HN0. now injection HN0 as <-. }
    destruct s1 as [p| | | |];
      try (injection H as _ _ <-; exists urls; now split).
    destruct (drain_from urlopen pulls fuel g1 w1) as [[ps s2] w2] eqn:Ed.
    injection H as _ _ <-.
    apply next_yield in En. destruct En as (page' & rest' & -> & Hpos).
    eapply IH in Ed; [|exact HN|].
    + destruct Ed as (urls2 & Hreq2 & Hall2). exists (urls ++ urls2)%list.
      split; [now rewrite Hreq2, Hreq, app_assoc|].
      apply Forall_app. split; [exact Hall'|exact Hall2].
    + cbn [position at_frame frame_ok].
      destruct (position g) as [|pg c paper rest|]; [lia| |contradiction].
      destruct Hok as [Hpg Hc]. destruct Hpos as (_ & _ & Hle). lia.
Qed.

End AnyNetworkRuns.

(** Whatever the network serves, a query with [max_results = N] never
    produces more than [max(N, 1)] records. *)
Theorem query_count_bound (urlopen : network) (q : string)
    (u : option datetime) (N : Z) (fuel : nat) (w w' : world)
    (out : list Paper) (s : signal) :
  drain urlopen fuel (query q u (Some N)) w = (out, s, w') ->
  Z.of_nat (List.length out) <= Z.max 1 N.
Proof.
  intros H.
  exact (drain_from_count urlopen fuel fuel (query q u (Some N)) w w' out s N
           eq_refl H).
Qed.

Lemma query_count_bound_witness :
  Z.of_nat (List.length (firstn 2 Fixture.january_records)) <= Z.max 1 2.
Proof.
  exact (query_count_bound (Fixture.endless Fixture.forever 5) "q" None 2 4
           fresh (log_request (search_url "q" 0 2) fresh)
           (firstn 2 Fixture.january_records) (Returned CountReached)
           eq_refl).
Defined.

(** Whatever the network serves and in whatever order, a query with
    [until = t] never produces a record after one published before [t]:
    every record produced, the last one at most excepted, was published at
    [t] or later. *)
Theorem query_date_floor (urlopen : network) (q : string) (t : datetime)
    (m : option Z) (fuel : nat) (w w' : world) (out : list Paper)
    (s : signal) :
  drain urlopen fuel (query q (Some t) m) w = (out, s, w') ->
  Forall (fun p => older_than t p = false) (removelast out).
Proof.
  intros H.
  exact (proj1 (drain_from_dates urlopen fuel fuel (query q (Some t) m) w w'
                  out s t eq_refl H)).
Qed.

Lemma query_date_floor_witness :
  Forall (fun p => older_than (Fixture.midnight 2024 1 9) p = false)
    (removelast (firstn 3 Fixture.january_records)).
Proof.
  exact (query_date_floor (Fixture.endless Fixture.forever 5) "q"
           (Fixture.midnight 2024 1 9) (Some 5) 10
           fresh (log_request (search_url "q" 0 5) fresh)
           (firstn 3 Fixture.january_records) (Returned DateReached)
           eq_refl).
Defined.

(** Whatever the network answers, every request a query with
    [max_results = N] makes is for a page (numbered from 0) of that query at
    [min(N, 1000)] entries a page: it never asks for more than 1000 entries
    and never for anything else. *)
Theorem query_requests (urlopen : network) (q : string)
    (u : option datetime) (N : Z) (fuel : nat) (w w' : world)
    (out : list Paper) (s : signal) :
  drain urlopen fuel (query q u (Some N)) w = (out, s, w') ->
  exists urls,
    requests w' = (requests w ++ urls)%list
    /\ Forall (is_page_url q (Z.min N 1000)) urls
    /\ Z.min N 1000 <= 1000.
Proof.
  intros H.
  destruct (drain_from_requests urlopen fuel fuel (query q u (Some N)) w w'
              out s N eq_refl I H) as (urls & Hreq & Hall).
  exists urls. repeat split; [exact Hreq|exact Hall|lia].
Qed.

Lemma query_requests_witness :
  exists urls,
    requests (log_requests [search_url "q" 0 1; search_url "q" 1 1] fresh)
    = (requests fresh ++ urls)%list
    /\ Forall (is_page_url "q" (Z.min 1 1000)) urls
    /\ Z.min 1 1000 <= 1000.
Proof.
  exact (query_requests Fixture.gap "q" None 1 3 fresh
           (log_requests [search_url "q" 0 1; search_url "q" 1 1] fresh)
           [Fixture.record_on 1 2024 1 10] (Returned CountReached) eq_refl).
Defined.

(** Once a [next] has ended in a [return] or an exception, the generator
    is finished: every later [next] reports exhaustion, changes nothing and
    makes no request, whatever the network. *)
Theorem finished_stays_finished (urlopen : network) (g g' : generator)
    (fuel : nat) (w w' : world) (s : signal) :
  next urlopen g fuel w = (s, g', w') ->
  (forall p, s <> Yield p) -> s <> OutOfFuel ->
  forall (urlopen2 : network) (fuel2 : nat) (w2 : world),
    next urlopen2 g' fuel2 w2 = (Exhausted, g', w2).
Proof.
  intros H Hy Hf urlopen2 fuel2 w2.
  assert (position g' = Finished) as Hpos.
  { assert (forall page count,
              while_true urlopen g fuel page count w = (s, g', w') ->
              position g' = Finished) as Hloop.
    { intros page count Hw. apply while_true_shape in Hw.
      destruct Hw as [Hshape _].
      destruct s as [p| |x| |];
        [exfalso; now apply (Hy p)|contradiction|now subst g'
        |contradiction|congruence]. }
    unfold next in H. destruct (position g) as [|pg c paper rest|] eqn:Hg.
    - destruct (until g), (max_results g);
        try (now apply (Hloop 0 0)); now injection H as _ <- _.
    - destruct (count_reached g (c + 1)); [now injection H as _ <- _|].
      destruct (date_reached g paper); [now injection H as _ <- _|].
      destruct rest as [|e rest]; cbn [for_entries] in H.
      + now apply (Hloop (pg + 1) (c + 1)).
      + destruct (paper_from_arxiv_entry e) as [p|x]; injection H as Hs <- _.
        * exfalso. now apply (Hy p).
        * reflexivity.
    - injection H as _ <- _. exact Hg. }
  unfold next. now rewrite Hpos.
Qed.

Lemma finished_stays_finished_witness :
  next Fixture.down (at_frame (query "q" None None) Finished) 7 fresh
  = (Exhausted, at_frame (query "q" None None) Finished, fresh).
Proof.
  apply (finished_stays_finished Fixture.down (query "q" None None)
           (at_frame (query "q" None None) Finished) 0 fresh fresh
           (Raised ValueError) eq_refl); discriminate.
Defined.

(** The ten delays of the default schedule are delays [sleep] accepts. *)
Lemma default_delays_sleepable (i : nat) :
  (i < 10)%nat -> sleepable (backoff_delay default_backoff_scaling (0 + i)) = true.
Proof.
  intros Hi.
  do 10 (destruct i as [|i]; [reflexivity|]). lia.
Qed.

(** A page whose ten attempts all fail ends the iteration: the loop raises
    [ValueError] after exactly ten requests for that page and the ten
    delays of the default schedule; with the network down from the start a
    query produces nothing. *)
Theorem fetch_failure_ends_iteration (urlopen : network) (q : string)
    (u : option datetime) (N : Z) (pos : frame) (page count : Z)
    (fuel : nat) (w : world) :
  (forall i, (i < 10)%nat ->
     urlopen (List.length (requests w) + i)%nat
       (search_url q page (Z.min N 1000)) = None) ->
  let failed :=
    after_failures (search_url q page (Z.min N 1000)) default_backoff_scaling
      w 0 10 in
  while_true urlopen (at_frame (query q u (Some N)) pos) (S fuel) page count w
  = (Raised ValueError, at_frame (query q u (Some N)) Finished, failed)
  /\ (page = 0 ->
      drain urlopen (S fuel) (query q u (Some N)) w
      = ([], Raised ValueError, failed)).
Proof.
  intros Hfail failed.
  assert (forall pos0,
            while_true urlopen (at_frame (query q u (Some N)) pos0) (S fuel)
              page count w
            = (Raised ValueError, at_frame (query q u (Some N)) Finished, failed))
    as Hloop.
  { intros pos0. cbn [while_true max_results at_frame query py_min query_string].
    unfold get_feed, default_max_tries.
    change (Z.to_nat 10) with 10%nat.
    now rewrite get_feed_loop_exhausted
      by first [exact Hfail|exact default_delays_sleepable]. }
  split; [apply Hloop|].
  intros ->. unfold drain. cbn [drain_from]. unfold next.
  cbn [position query until max_results].
  destruct u; cbn [while_true max_results query py_min query_string];
    unfold get_feed, default_max_tries; change (Z.to_nat 10) with 10%nat;
    now rewrite get_feed_loop_exhausted
      by first [exact Hfail|exact default_delays_sleepable].
Qed.

Lemma fetch_failure_ends_iteration_witness :
  drain Fixture.down 1 (query "q" None (Some 3)) fresh
  = ([], Raised ValueError,
     after_failures (search_url "q" 0 3) default_backoff_scaling fresh 0 10).
Proof.
  apply (proj2 (fetch_failure_ends_iteration Fixture.down "q" None 3 Created
                  0 0 0 fresh (fun _ _ => eq_refl))).
  reflexivity.
Defined.

(** ** The collection store *)

(** [FileBackend.paper] succeeds exactly on the identifiers that
    [FileBackend.ids] lists and raises [ValueError] on every other one; on
    success it hands back the class [Paper], whichever record matched.
    [ids] lists one identifier per stored paper, in order, duplicates
    kept. *)
Theorem backend_paper_ids (b : Backend.FileBackend) (i : string) :
  (In i (Backend.ids b) <-> Backend.paper b i = Ok Backend.PaperClass)
  /\ (~ In i (Backend.ids b) <-> Backend.paper b i = Raise ValueError)
  /\ List.length (Backend.ids b) = List.length (Backend.all_papers b).
Proof.
  unfold Backend.paper, Backend.ids.
  assert (forall ps,
            (In i (List.map id ps)
             <-> Backend.paper_scan ps i = Ok Backend.PaperClass)
            /\ (~ In i (List.map id ps)
                <-> Backend.paper_scan ps i = Raise ValueError)) as Hscan.
  { induction ps as [|p ps [IH1 IH2]]; simpl.
    - split; split; try contradiction; try discriminate; tauto.
    - destruct (String.eqb_spec (id p) i) as [E|E].
      + split; split; try tauto; try discriminate; try reflexivity.
      + rewrite <- IH1, <- IH2. tauto. }
  destruct (Hscan (Backend.all_papers b)) as [H1 H2].
  split; [exact H1|]. split; [exact H2|]. apply length_map.
Qed.

(** ** How an iteration can end *)

Lemma last_cons {A : Type} (l : list A) (a d : A) :
  last (a :: l) d = last l a.
Proof.
  revert a d. induction l as [|b l IH]; intros a d; [reflexivity|].
  change (last (a :: b :: l) d) with (last (b :: l) d).
  now rewrite (IH b d), (IH b a).
Qed.

Section Endings.

Variable urlopen : network.

(** A [next] returns only on resuming after a record for which a stop
    condition holds, and reports exhaustion only when finished before. *)
Lemma next_ending (g : generator) (fuel : nat) (w w' : world) (s : signal)
    (g' : generator) :
  next urlopen g fuel w = (s, g', w') ->
  match s with
  | Returned why =>
      exists pg c paper rest,
        position g = Suspended pg c paper rest
        /\ match why with
           | CountReached => count_reached g (c + 1) = true
           | DateReached =>
               count_reached g (c + 1) = false /\ date_reached g paper = true
           end
  | Exhausted => position g = Finished
  | Yield _ | Raised _ | OutOfFuel => True
  end.
Proof.
  assert (forall page count,
            while_true urlopen g fuel page count w = (s, g', w') ->
            match s with
            | Returned _ | Exhausted => False
            | Yield _ | Raised _ | OutOfFuel => True
            end) as Hloop.
  { intros page count H. apply while_true_shape in H.
    destruct H as [H _]. now destruct s. }
  unfold next. destruct (position g) as [|pg c paper rest|] eqn:Hpos.
  - intros H.
    assert (match s with
            | Returned _ | Exhausted => False
            | Yield _ | Raised _ | OutOfFuel => True
            end) as Hs.
    { destruct (until g), (max_results g);
        try (now apply (Hloop 0 0)); now injection H as <- _ _. }
    now destruct s.
  - destruct (count_reached g (c + 1)) eqn:Hc.
    { intros [= <- _ _]. now exists pg, c, paper, rest. }
    destruct (date_reached g paper) eqn:Hd.
    { intros [= <- _ _]. now exists pg, c, paper, rest. }
    destruct rest as [|e rest]; cbn [for_entries].
    + intros H. apply Hloop in H. now destruct s.
    + destruct (paper_from_arxiv_entry e); now intros [= <- _ _].
  - now intros [= <- _ _].
Qed.

(** From a suspended generator on: the run never ends in exhaustion, and
    it returns only on a stop condition that holds for the last record
    produced. *)
Lemma drain_from_ending (pulls : nat) :
  forall (fuel : nat) (g : generator) (w w' : world) (out : list Paper)
         (s : signal) (pg c : Z) (paper : Paper) (rest : list entry),
    position g = Suspended pg c paper rest ->
    drain_from urlopen pulls fuel g w = (out, s, w') ->
    match s with
    | Returned CountReached =>
        count_reached g (c + 1 + Z.of_nat (List.length out)) = true
    | Returned DateReached =>
        count_reached g (c + 1 + Z.of_nat (List.length out)) = false
        /\ date_reached g (last out paper) = true
    | Yield _ | Exhausted => False
    | Raised _ | OutOfFuel => True
    end.
Proof.
  induction pulls as [|pulls IH];
    intros fuel g w w' out s pg c paper rest Hpos H; cbn [drain_from] in H.
  - now injection H as _ <- _.
  - destruct (next urlopen g fuel w) as [[s1 g1] w1] eqn:En.
    destruct s1 as [p|why|x| |].
    + destruct (drain_from urlopen pulls fuel g1 w1) as [[ps s2] w2] eqn:Ed.
      injection H as <- <- _.
      apply next_yield in En. destruct En as (page' & rest' & -> & _).
      rewrite Hpos in Ed.
      eapply IH in Ed; [|reflexivity].
      cbn [List.length]. rewrite last_cons.
      replace (c + 1 + Z.of_nat (S (List.length ps)))
        with (c + 1 + 1 + Z.of_nat (List.length ps)) by lia.
      exact Ed.
    + injection H as <- <- _. apply next_ending in En.
      destruct En as (pg0 & c0 & paper0 & rest0 & Hpos0 & Hstop).
      rewrite Hpos in Hpos0. injection Hpos0 as <- <- <- <-.
      cbn [List.length last Z.of_nat]. rewrite Z.add_0_r.
      now destruct why.
    + now injection H as _ <- _.
    + injection H as _ <- _. apply next_ending in En. congruence.
    + now injection H as _ <- _.
Qed.

End Endings.

(** C2 (as the code behaves).  A page without entries does not end the
    iteration: the loop produces nothing from it and goes round to the next
    page with the count unchanged.  When every request is answered at the
    first attempt: past [j] empty pages the first record of the page after
    them is yielded, [j + 1] requests made; and with every page empty each
    unit of fuel goes into one more request and the iteration never ends.
    Whatever the network, an iteration that ends does so by an exception or
    by a [return] taken right after a produced record for which a stop
    condition holds. *)
Theorem empty_page_fetches_next (urlopen : network) (q : string)
    (u : option datetime) (m : Z) :
  (forall (pos : frame) (fuel : nat) (page count : Z) (w w' : world)
          (data : feed),
     get_feed urlopen (search_url q page (Z.min m 1000))
       default_backoff_scaling default_max_tries w = (Ok data, w') ->
     entries data = [] ->
     while_true urlopen (at_frame (query q u (Some m)) pos) (S fuel)
       page count w
     = while_true urlopen (at_frame (query q u (Some m)) pos) fuel
         (page + 1) count w')
  /\ (forall (first j : nat) (count : Z) (pos : frame) (e : entry)
             (rest : list entry) (r : Paper),
        (forall t p, (first <= p < first + j)%nat ->
           urlopen t (search_url q (Z.of_nat p) (Z.min m 1000))
           = Some {| entries := [] |}) ->
        (forall t, urlopen t (search_url q (Z.of_nat (first + j)) (Z.min m 1000))
                   = Some {| entries := e :: rest |}) ->
        paper_from_arxiv_entry e = Ok r ->
        forall (fuel : nat) (w : world),
          (j < fuel)%nat ->
          while_true urlopen (at_frame (query q u (Some m)) pos) fuel
            (Z.of_nat first) count w
          = (Yield r,
             at_frame (query q u (Some m))
               (Suspended (Z.of_nat (first + j)) count r rest),
             log_requests (page_urls q (Z.min m 1000) first (S j)) w))
  /\ ((forall t url, urlopen t url = Some {| entries := [] |}) ->
      forall (fuel : nat) (w : world),
        drain urlopen fuel (query q u (Some m)) w
        = ([], OutOfFuel, log_requests (page_urls q (Z.min m 1000) 0 fuel) w))
  /\ (forall (fuel : nat) (w w' : world) (out : list Paper) (s : signal),
        drain urlopen fuel (query q u (Some m)) w = (out, s, w') ->
        match s with
        | Returned why =>
            exists front p,
              out = (front ++ [p])%list
              /\ match why with
                 | CountReached =>
                     count_reached (query q u (Some m))
                       (Z.of_nat (List.length out)) = true
                 | DateReached =>
                     count_reached (query q u (Some m))
                       (Z.of_nat (List.length out)) = false
                     /\ date_reached (query q u (Some m)) p = true
                 end
        | Raised _ | OutOfFuel => True
        | Yield _ | Exhausted => False
        end).
Proof.
  split; [|split; [|split]].
  - intros pos fuel page count w w' data Hget He.
    now apply (while_true_empty_page urlopen
                 (at_frame (query q u (Some m)) pos) m fuel page count w w'
                 data eq_refl).
  - intros first j count pos e rest r Hempty Hfull Hr fuel w Hfuel.
    now apply (while_true_skips_empty urlopen
                 (at_frame (query q u (Some m)) pos) m eq_refl j e rest r).
  - intros Hnet fuel w. unfold drain.
    destruct fuel as [|fuel].
    + simpl. unfold page_urls. simpl. now rewrite log_requests_nil.
    + cbn [drain_from]. unfold next. cbn [position query until max_results].
      replace (match u with Some _ | _ => _ end)
        with (while_true urlopen (query q u (Some m)) (S fuel) 0 0 w)
        by now destruct u.
      pose proof (while_true_all_empty urlopen (query q u (Some m)) m eq_refl
                    Hnet (S fuel) 0%nat 0 w) as E.
      change (Z.of_nat 0) with 0 in E. now rewrite E.
  - intros fuel w w' out s H. unfold drain in H.
    destruct fuel as [|fuel]; cbn [drain_from] in H;
      [now injection H as _ <- _|].
    destruct (next urlopen (query q u (Some m)) (S fuel) w)
      as [[s1 g1] w1] eqn:En.
    destruct s1 as [p|why|x| |].
    + destruct (drain_from urlopen fuel (S fuel) g1 w1) as [[ps s2] w2] eqn:Ed.
      injection H as <- <- _.
      apply next_yield in En. destruct En as (page' & rest' & -> & _).
      cbn [position query] in Ed.
      eapply drain_from_ending in Ed; [|reflexivity].
      destruct s2 as [p2|why|x| |]; try exact Ed.
      exists (removelast (p :: ps)), (last ps p).
      split.
      { rewrite <- (last_cons ps p p).
        apply app_removelast_last. discriminate. }
      cbn [List.length]. rewrite Nat2Z.inj_succ.
      replace (Z.succ (Z.of_nat (List.length ps)))
        with (0 + 1 + Z.of_nat (List.length ps)) by lia.
      exact Ed.
    + injection H as _ <- _. apply next_ending in En.
      destruct En as (pg0 & c0 & paper0 & rest0 & Hpos0 & _). discriminate.
    + now injection H as _ <- _.
    + injection H as _ <- _. apply next_ending in En. discriminate.
    + now injection H as _ <- _.
Qed.

Lemma empty_page_fetches_next_witness :
  while_true Fixture.gap (query "q" None (Some 1)) 2 0 0 fresh
  = (Yield (Fixture.record_on 1 2024 1 10),
     at_frame (query "q" None (Some 1))
       (Suspended 1 0 (Fixture.record_on 1 2024 1 10) []),
     log_requests [search_url "q" 0 1; search_url "q" 1 1] fresh)
  /\ drain (Fixture.scripted []) 3 (query "q" None (Some 1)) fresh
     = ([], OutOfFuel,
        log_requests
          [search_url "q" 0 1; search_url "q" 1 1; search_url "q" 2 1] fresh)
  /\ while_true Fixture.gap (query "q" None (Some 1)) 2 0 0 fresh
     = while_true Fixture.gap (query "q" None (Some 1)) 1 1 0
         (log_request (search_url "q" 0 1) fresh)
  /\ exists front p,
       [Fixture.record_on 1 2024 1 10] = (front ++ [p])%list
       /\ count_reached (query "q" None (Some 1)) 1 = true.
Proof.
  destruct (empty_page_fetches_next Fixture.gap "q" None 1)
    as (Hstep & Hskip & _ & Hend).
  split; [|split; [|split]].
  - apply (Hskip 0%nat 1%nat 0 Created (Fixture.entry_on 1 2024 1 10) []
             (Fixture.record_on 1 2024 1 10)).
    + intros t p Hp. assert (p = 0%nat) as -> by lia. reflexivity.
    + intros t. reflexivity.
    + reflexivity.
    + lia.
  - apply (proj1 (proj2 (proj2
             (empty_page_fetches_next (Fixture.scripted []) "q" None 1)))).
    intros t url. unfold Fixture.scripted. now destruct t.
  - exact (Hstep Created 1%nat 0 0 fresh
             (log_request (search_url "q" 0 1) fresh)
             {| entries := [] |} eq_refl eq_refl).
  - exact (Hend 3%nat fresh
             (log_requests [search_url "q" 0 1; search_url "q" 1 1] fresh)
             [Fixture.record_on 1 2024 1 10] (Returned CountReached) eq_refl).
Defined.

(** C2 as stated fails: the first page fetched has no entry, and the
    iteration goes on to request a second page and produces a record from
    it. *)
Lemma empty_page_does_not_end :
  get_feed Fixture.gap (search_url "q" 0 1) default_backoff_scaling
    default_max_tries fresh
  = (Ok {| entries := [] |}, log_request (search_url "q" 0 1) fresh)
  /\ drain Fixture.gap 3 (query "q" None (Some 1)) fresh
     = ([Fixture.record_on 1 2024 1 10], Returned CountReached,
        log_requests [search_url "q" 0 1; search_url "q" 1 1] fresh).
Proof. split; reflexivity. Qed.
